(** * Igor's stellate stencils: the contour pipeline of [igor.cpp]

    The program turns a pad radius and a few physical parameters into the
    outline of a star: [contour] samples a piecewise profile into a ladder
    of (s, c) pairs, [contourtoxy] maps the ladder to Cartesian points and
    [xy0toN] replicates that sector by rotation and reflection.

    The program is read twice.
    - Over the reals: [double] is a real number, [int] and [size_t] are [Z]
      and [nat].  This is the reading of the formulas: what holds in exact
      arithmetic, the geometry of [rot] and [mirr], the layout of the star,
      the order of the checks.  It says nothing on rounding, and ends with
      [DivisionByZero] where a divisor is zero.
    - Over binary64, in the module [B64]: [contour] and the parameters that
      [main] derives for it, operation by operation as the processor
      computes them.  What a run returns for given numbers is read there.
    [assert] aborts the process (the program is read as compiled with
    assertions on), [vector::at] throws, and the conversion to [int] of a
    double that does not fit one is undefined: all three end a run, and are
    [fault]s of the [result] monad below. *)

From Stdlib Require Import Reals Lra Lia ZArith List Bool.
From Stdlib Require String Ascii Floats.
Import ListNotations.
Import String.StringSyntax.
Delimit Scope string_scope with string.

Open Scope R_scope.

(** ** Faults and the result monad *)

(** The assertions of the source, in the order in which they appear. *)
Inductive assertion : Set :=
| A_rf_le_1      (* contour : assert(rf <= 1.0)       *)
| A_hf_le_1      (* contour : assert(hf <= 1.0)       *)
| A_rf_pos       (* contour : assert(rf > 0.0)        *)
| A_hf_pos       (* contour : assert(hf > 0.0)        *)
| A_N_pos        (* contour : assert(N > 0)           *)
| A_R_pos        (* contour : assert(R > 0)           *)
| A_h_nonneg     (* contour : assert(h >= 0)          *)
| A_s_nonneg     (* contour, lambda c : assert(s >= 0.0) *)
| A_Kappa_ge_K   (* contour : assert(Kappa >= K)      *)
| A_size_IN2.    (* xy0toN  : assert(xy.size() == IN2) *)

Inductive fault : Set :=
| AssertFailed (a : assertion)
| DivisionByZero
| OutOfRange
| LengthError
| UndefinedConversion.

Inductive result (A : Type) : Type :=
| Ok (a : A)
| Fault (f : fault).

Arguments Ok {A} a.
Arguments Fault {A} f.

Definition bind {A B : Type} (m : result A) (k : A -> result B) : result B :=
  match m with
  | Ok a => k a
  | Fault f => Fault f
  end.

Declare Scope result_scope.
Delimit Scope result_scope with result.
Notation "x <- m ;; k" := (bind m (fun x => k))
  (at level 61, m at next level, right associativity) : result_scope.
Notation "m ;;; k" := (bind m (fun _ => k))
  (at level 61, right associativity) : result_scope.
Open Scope result_scope.

Definition assert (b : bool) (a : assertion) : result unit :=
  if b then Ok tt else Fault (AssertFailed a).

(** The type of the program's floating-point values. *)
Abbreviation double := R (only parsing).

(** Comparisons of doubles, as booleans. *)
Definition Rltb (x y : double) : bool := if Rlt_dec x y then true else false.
Definition Rleb (x y : double) : bool := if Rle_dec x y then true else false.

(** [a / b] on doubles.  With a zero divisor the quotient is no real number
    (the program goes on with an infinity or a NaN): the reading over the
    reals ends there, with [DivisionByZero]. *)
Definition fdiv (a b : double) : result double :=
  if Req_dec_T b 0 then Fault DivisionByZero else Ok (a / b).

(** The conversion to [int] of a double whose whole part is [z]: undefined
    in C++ when [z] does not fit an [int]. *)
Definition int_min : Z := -2147483648.
Definition int_max : Z := 2147483647.

Definition to_int (z : Z) : result Z :=
  if ((int_min <=? z) && (z <=? int_max))%Z then Ok z
  else Fault UndefinedConversion.

(** ** Vectors *)

Definition co_t : Type := double * double.
Definition co_vec_t : Type := list co_t.

(** [C.at(i)] (and [C[i]], whose out-of-range use is undefined). *)
Definition get {A : Type} (C : list A) (i : Z) : result A :=
  if (i <? 0)%Z then Fault OutOfRange
  else match nth_error C (Z.to_nat i) with
       | Some a => Ok a
       | None => Fault OutOfRange
       end.

(** The vector [C] after an assignment through a reference to slot [i]. *)
Fixpoint upd {A : Type} (C : list A) (i : nat) (v : A) : list A :=
  match C, i with
  | [], _ => []
  | _ :: C', O => v :: C'
  | a :: C', S i' => a :: upd C' i' v
  end.

(** [get(C,i).first = v] and [get(C,i).second = v]. *)
Definition set_first (C : co_vec_t) (i : Z) (v : double) : result co_vec_t :=
  p <- get C i ;; Ok (upd C (Z.to_nat i) (v, snd p)).

Definition set_second (C : co_vec_t) (i : Z) (v : double) : result co_vec_t :=
  p <- get C i ;; Ok (upd C (Z.to_nat i) (fst p, v)).

(** [co_vec_t v(n)]: [n] value-initialised pairs; a negative [int] becomes a
    size beyond [max_size]. *)
Definition vector_n (n : Z) : result co_vec_t :=
  if (n <? 0)%Z then Fault LengthError
  else Ok (repeat (0, 0) (Z.to_nat n)).

(** ** Loops *)

(** [for (k = k0; ...; ++k) body], run for [n] iterations. *)
Fixpoint for_up {S : Type} (n : nat) (k : Z) (body : Z -> S -> result S)
  (st : S) : result S :=
  match n with
  | O => Ok st
  | Datatypes.S n' => st' <- body k st ;; for_up n' (k + 1)%Z body st'
  end.

(** [for (i = i0; ...; --i) body], run for [n] iterations. *)
Fixpoint for_down {S : Type} (n : nat) (i : Z) (body : Z -> S -> result S)
  (st : S) : result S :=
  match n with
  | O => Ok st
  | Datatypes.S n' => st' <- body i st ;; for_down n' (i - 1)%Z body st'
  end.

(** ** Elementary geometry *)

Definition pi : double := 3.1415926535897932384626.

Definition sctoxy (s c o : double) : result co_t :=
  a <- fdiv c s ;;
  b <- fdiv c s ;;
  Ok (s * cos (a + o), s * sin (b + o)).

Definition rot_xy (x y alpha : double) : co_t :=
  (x * cos alpha - y * sin alpha, x * sin alpha + y * cos alpha).

Definition rot (xy : co_t) (alpha : double) : co_t :=
  rot_xy (fst xy) (snd xy) alpha.

Definition mirr_xy (x y c : double) : co_t :=
  let mx := cos c in
  let my := sin c in
  let sca := x * mx + y * my in
  (2 * sca * mx - x, 2 * sca * my - y).

Definition mirr (xy : co_t) (c : double) : co_t :=
  mirr_xy (fst xy) (snd xy) c.

(** ** The profile and its sampling: [contour] *)

Section Profile.

Variables R h rf hf : double.

Definition s1 : double := R + h.
Definition s2 : double := R * (1 + hf * rf) + h.
Definition s3 : double := R * (1 + rf) + h.

Definition c1 (s : double) : double := 2 * pi * s.

Definition c2 (s : double) : result double :=
  q <- fdiv (2 * pi * (h + R * hf * rf) * (s - s1)) (R * hf * rf) ;;
  Ok (c1 s1 - q).

Definition c3 (s : double) : result double :=
  a <- c2 s2 ;;
  Ok (a - 2 * pi * (s - s2)).

Definition c (s : double) : result double :=
  assert (Rleb 0 s) A_s_nonneg ;;;
  if Rltb s s1 then Ok (c1 s)
  else if Rltb s s2 then c2 s
  else c3 s.

Definition sk (ds : double) (k : Z) : double := s1 + ds * IZR k.

(** Body of the first loop of [contour]. *)
Definition fill_profile (ds : double) (k : Z) (sc0 : co_vec_t)
  : result co_vec_t :=
  sc0 <- set_first sc0 k (sk ds k) ;;
  p <- get sc0 k ;;
  v <- c (fst p) ;;
  set_second sc0 k v.

(** Body of the second loop of [contour]. *)
Definition fill_closure (ds : double) (K N : Z) (k : Z) (sc0 : co_vec_t)
  : result co_vec_t :=
  sc0 <- set_first sc0 k (sk ds K) ;;
  v <- c (sk ds K) ;;
  set_second sc0 k (v - ds * 2 * IZR N * IZR (k - K)).

(** The assertions at the head of [contour]. *)
Definition preconditions (N : Z) : result unit :=
  assert (Rleb rf 1) A_rf_le_1 ;;;
  assert (Rleb hf 1) A_hf_le_1 ;;;
  assert (Rltb 0 rf) A_rf_pos ;;;
  assert (Rltb 0 hf) A_hf_pos ;;;
  assert (0 <? N)%Z A_N_pos ;;;
  assert (Rltb 0 R) A_R_pos ;;;
  assert (Rleb 0 h) A_h_nonneg.

(** [ds] and [Kappa], as [contour] computes them. *)
Definition step (K : Z) : result double := fdiv (s3 - s1) (IZR K).

Definition tail_count (ds : double) (K N : Z) : result Z :=
  cs3 <- c s3 ;;
  q <- fdiv cs3 (ds * IZR N * 2) ;;
  to_int (Zfloor (IZR K + q)).

Definition contour (K N : Z) : result co_vec_t :=
  preconditions N ;;;
  ds <- step K ;;
  Kappa <- tail_count ds K N ;;
  assert (K <=? Kappa)%Z A_Kappa_ge_K ;;;
  sc0 <- vector_n Kappa ;;
  sc0 <- for_up (Z.to_nat K) 0 (fill_profile ds) sc0 ;;
  for_up (Z.to_nat (Kappa - K)) K (fill_closure ds K N) sc0.

End Profile.

(** ** The coordinate mapper: [contourtoxy] *)

Definition map_sample (sc0 : co_vec_t) (frac : double) (i : Z) (xy0 : co_vec_t)
  : result co_vec_t :=
  p <- get sc0 i ;;
  q <- get sc0 i ;;
  v <- sctoxy (fst p) (snd q * frac) 0 ;;
  _ <- get xy0 i ;;
  Ok (upd xy0 (Z.to_nat i) v).

Definition contourtoxy (sc0 : co_vec_t) (N : Z) : result co_vec_t :=
  let I := length sc0 in
  frac <- fdiv 0.5 (IZR N) ;;
  xy0 <- vector_n (Z.of_nat I) ;;
  for_up I 0 (map_sample sc0 frac) xy0.

(** ** The symmetry expander: [xy0toN] *)

Definition push_rot (xy0 : co_vec_t) (alpha : double) (i : Z) (xy : co_vec_t)
  : result co_vec_t :=
  p <- get xy0 i ;;
  Ok (xy ++ [rot p alpha]).

Definition push_mirr (xy0 : co_vec_t) (alpha axis : double) (i : Z) (xy : co_vec_t)
  : result co_vec_t :=
  p <- get xy0 i ;;
  Ok (xy ++ [mirr (rot p alpha) axis]).

Definition jag (xy0 : co_vec_t) (dalpha : double) (n : Z) (xy : co_vec_t)
  : result co_vec_t :=
  let I := length xy0 in
  xy <- for_down I (Z.of_nat I - 1) (push_rot xy0 (IZR n * dalpha)) xy ;;
  for_up I 0 (push_mirr xy0 (IZR n * dalpha) ((IZR n + 0.5) * dalpha)) xy.

(** The outer loop compares its [size_t] counter with the [int] N: it runs
    N times for N >= 0.  A negative N, which C++ converts to a huge unsigned
    value there, is outside what is modelled. *)
Definition xy0toN (xy0 : co_vec_t) (N : Z) : result co_vec_t :=
  let I := length xy0 in
  let IN2 := (2 * N * Z.of_nat I)%Z in
  dalpha <- fdiv (2 * pi) (IZR N) ;;
  xy <- for_up (Z.to_nat N) 0 (jag xy0 dalpha) [] ;;
  assert (Z.of_nat (length xy) =? IN2)%Z A_size_IN2 ;;;
  Ok xy.

(** ** The pipeline of [main], for one radius *)

Definition star (R h rf hf : double) (K N : Z) : result co_vec_t :=
  sc0 <- contour R h rf hf K N ;;
  xy0 <- contourtoxy sc0 N ;;
  xy0toN xy0 N.

(** ** The derived parameters of [main] *)

(** The conversion of a [double] to [int] discards the fractional part.  In
    [radtoN] and in [main] the reading over the reals leaves the range of
    [int] aside; [B64.radtoN] and [B64.main_contour] below check it. *)
Definition trunc (x : double) : Z :=
  if Rlt_dec x 0 then Zceil x else Zfloor x.

(** [ceil] returns a whole number, which the cast to [int] leaves as it is. *)
Definition radtoN (r cmax : double) : result Z :=
  q <- fdiv (2 * pi * r) cmax ;;
  Ok (Zceil q).

(** The body of the loop of [main], from the radius read to the star, for
    the six leading scalars of the input. *)
Definition generate (res h cmax rmin drmax hf R : double) : result co_vec_t :=
  N <- radtoN R cmax ;;
  q <- fdiv R res ;;
  let K := trunc q in
  m <- fdiv (Rmin (R - rmin) drmax) R ;;
  let rf := m in
  star R h rf hf K N.

(** ** The serializer: [print] *)

Definition dquote : String.string :=
  String.String (Ascii.ascii_of_nat 34) String.EmptyString.

Definition newline : String.string :=
  String.String (Ascii.ascii_of_nat 10) String.EmptyString.

(** The text written before the first coordinate and after the last one. *)
Definition svg_head : String.string :=
  String.concat String.EmptyString
    ["<?xml version="%string; dquote; "1.0"%string; dquote;
     " encoding="%string; dquote; "UTF-8"%string; dquote;
     " standalone="%string; dquote; "no"%string; dquote; "?>"%string; newline;
     "<svg version="%string; dquote; "1.1"%string; dquote; ">"%string; newline;
     "<g"%string; newline;
     "style="%string; dquote;
     "fill:none;stroke:#000000;stroke-opacity:1;stroke-width:0.1"%string;
     dquote; ">"%string; newline;
     "<path d="%string; dquote; "M "%string].

Definition svg_tail : String.string :=
  String.concat String.EmptyString
    ["Z"%string; dquote; newline;
     "id="%string; dquote; "path1"%string; dquote; " />"%string; newline;
     "</g>"%string; newline;
     "</svg>"%string; newline].

Section Print.

(** How the stream formats a [double]: the standard library's, not the
    program's. *)
Variable show : double -> String.string.

(** [o << x << " " << y], the stream being the text written so far. *)
Definition put_xy (o : String.string) (x y : double) : String.string :=
  String.append (String.append (String.append o (show x)) " "%string) (show y).

(** Body of the loop of [print]. *)
Definition print_segment (xy : co_vec_t) (k : Z) (o : String.string)
  : result String.string :=
  p <- get xy k ;;
  q <- get xy k ;;
  Ok (put_xy (String.append o " L "%string) (fst p) (snd q)).

Definition print (xy : co_vec_t) (o : String.string) : result String.string :=
  let o := String.append o svg_head in
  p <- get xy 0 ;;
  q <- get xy 0 ;;
  let o := put_xy o (fst p) (snd q) in
  o <- for_up (length xy - 1) 1 (print_segment xy) o ;;
  Ok (String.append o svg_tail).

(** One pass of the loop of [main]: the star of a radius, written to a new
    file (the progress message and the name of the file are left out). *)
Definition main_step (res h cmax rmin drmax hf R : double)
  : result String.string :=
  xyN <- generate res h cmax rmin drmax hf R ;;
  print xyN String.EmptyString.

End Print.

(** * The program in binary64

    [contour] once more, with the parameters that [main] derives for it, over
    the processor's binary64 numbers: what a run computes, rounding,
    infinities and NaN included.  Every operation is the IEEE 754 one,
    rounded to nearest, evaluated by the kernel; nothing is fused and no
    intermediate result is kept in a wider format.  The conversion to [int]
    of a double that is not a number, or whose whole part does not fit an
    [int], is undefined in C++ and ends the run here with
    [UndefinedConversion].  The functions that need [cos] and [sin] are not
    read this way. *)

Module B64.

Import PrimFloat FloatOps SpecFloat.
#[local] Set Warnings "-inexact-float".
Local Open Scope float_scope.

Definition co_t : Type := float * float.
Definition co_vec_t : Type := list co_t.

(** [static_cast<double>(z)], and the conversion of an [int] operand of a
    mixed expression. *)
Definition of_int (z : Z) : float :=
  if (z <? 0)%Z then - of_uint63 (Uint63.of_Z (- z))
  else of_uint63 (Uint63.of_Z z).

(** The whole numbers that [floor], [ceil] and the truncation give for a
    finite double; none for an infinity or a NaN. *)
Definition floorZ (x : float) : option Z :=
  match Prim2SF x with
  | S754_zero _ => Some 0%Z
  | S754_finite s m e =>
      let z := if s then Zneg m else Zpos m in
      Some (if (0 <=? e)%Z then z * 2 ^ e else z / 2 ^ (- e))%Z
  | S754_infinity _ | S754_nan => None
  end.

Definition ceilZ (x : float) : option Z := option_map Z.opp (floorZ (- x)).

Definition truncZ (x : float) : option Z :=
  match Prim2SF x with
  | S754_zero _ => Some 0%Z
  | S754_finite s m e =>
      let z := if s then Zneg m else Zpos m in
      Some (if (0 <=? e)%Z then z * 2 ^ e else Z.quot z (2 ^ (- e)))%Z
  | S754_infinity _ | S754_nan => None
  end.

(** The conversion to [int] of a double whose whole part is [z]. *)
Definition to_int (z : option Z) : result Z :=
  match z with
  | Some z => to_int z
  | None => Fault UndefinedConversion
  end.

Definition pi : float := 3.1415926535897932384626.

Definition set_first (C : co_vec_t) (i : Z) (v : float) : result co_vec_t :=
  p <- get C i ;; Ok (upd C (Z.to_nat i) (v, snd p)).

Definition set_second (C : co_vec_t) (i : Z) (v : float) : result co_vec_t :=
  p <- get C i ;; Ok (upd C (Z.to_nat i) (fst p, v)).

Definition vector_n (n : Z) : result co_vec_t :=
  if (n <? 0)%Z then Fault LengthError
  else Ok (repeat (0, 0) (Z.to_nat n)).

Section Profile.

Variables R h rf hf : float.

Definition s1 : float := R + h.
Definition s2 : float := R * (1 + hf * rf) + h.
Definition s3 : float := R * (1 + rf) + h.

Definition c1 (s : float) : float := 2 * pi * s.

Definition c2 (s : float) : float :=
  c1 s1 - 2 * pi * (h + R * hf * rf) * (s - s1) / (R * hf * rf).

Definition c3 (s : float) : float := c2 s2 - 2 * pi * (s - s2).

Definition c (s : float) : result float :=
  assert (0 <=? s) A_s_nonneg ;;;
  Ok (if s <? s1 then c1 s
      else if s <? s2 then c2 s
      else c3 s).

Definition sk (ds : float) (k : Z) : float := s1 + ds * of_int k.

Definition fill_profile (ds : float) (k : Z) (sc0 : co_vec_t)
  : result co_vec_t :=
  sc0 <- set_first sc0 k (sk ds k) ;;
  p <- get sc0 k ;;
  v <- c (fst p) ;;
  set_second sc0 k v.

Definition fill_closure (ds : float) (K N : Z) (k : Z) (sc0 : co_vec_t)
  : result co_vec_t :=
  sc0 <- set_first sc0 k (sk ds K) ;;
  v <- c (sk ds K) ;;
  set_second sc0 k (v - ds * 2 * of_int N * of_int (k - K)).

Definition preconditions (N : Z) : result unit :=
  assert (rf <=? 1) A_rf_le_1 ;;;
  assert (hf <=? 1) A_hf_le_1 ;;;
  assert (0 <? rf) A_rf_pos ;;;
  assert (0 <? hf) A_hf_pos ;;;
  assert (0 <? N)%Z A_N_pos ;;;
  assert (0 <? R) A_R_pos ;;;
  assert (0 <=? h) A_h_nonneg.

Definition step (K : Z) : float := (s3 - s1) / of_int K.

(** The divisor [ds * N * 2], the double handed to [floor], and Kappa. *)
Definition tail_divisor (ds : float) (N : Z) : float := ds * of_int N * 2.

Definition tail_arg (ds : float) (K N : Z) : result float :=
  cs3 <- c s3 ;;
  Ok (of_int K + cs3 / tail_divisor ds N).

Definition tail_count (ds : float) (K N : Z) : result Z :=
  x <- tail_arg ds K N ;;
  to_int (floorZ x).

Definition contour (K N : Z) : result co_vec_t :=
  preconditions N ;;;
  let ds := step K in
  Kappa <- tail_count ds K N ;;
  assert (K <=? Kappa)%Z A_Kappa_ge_K ;;;
  sc0 <- vector_n Kappa ;;
  sc0 <- for_up (Z.to_nat K) 0 (fill_profile ds) sc0 ;;
  for_up (Z.to_nat (Kappa - K)) K (fill_closure ds K N) sc0.

(** The value [c] returns when its assertion holds, and the samples the two
    loops write. *)
Definition circumference (s : float) : float :=
  if s <? s1 then c1 s
  else if s <? s2 then c2 s
  else c3 s.

Definition profile_sample (ds : float) (k : Z) : co_t :=
  (sk ds k, circumference (sk ds k)).

Definition closure_sample (ds : float) (K N k : Z) : co_t :=
  (sk ds K, circumference (sk ds K) - ds * 2 * of_int N * of_int (k - K)).

End Profile.

Definition radtoN (r cmax : float) : result Z :=
  to_int (ceilZ (2 * pi * r / cmax)).

(** [std::min]. *)
Definition min (a b : float) : float := if b <? a then b else a.

(** The body of the loop of [main] up to the call of [contour]. *)
Definition main_contour (res h cmax rmin drmax hf R : float)
  : result co_vec_t :=
  N <- radtoN R cmax ;;
  K <- to_int (truncZ (R / res)) ;;
  let rf := min (R - rmin) drmax / R in
  contour R h rf hf K N.

End B64.

(** * Values of a run

    The preconditions as a proposition, and the values that the functions
    above return when no check fails; the properties below relate the two. *)

(** The preconditions of [contour], as the assertions state them. *)
Definition valid (R h rf hf : double) (N : Z) : Prop :=
  0 < R /\ 0 <= h /\ 0 < rf <= 1 /\ 0 < hf <= 1 /\ (0 < N)%Z.

(** The assertions that guard the parameters of [contour]. *)
Definition precondition_assertions : list assertion :=
  [A_rf_le_1; A_hf_le_1; A_rf_pos; A_hf_pos; A_N_pos; A_R_pos; A_h_nonneg].

(** Integers from [a], [n] of them: the values of a counter running up. *)
Definition Zseq (a : Z) (n : nat) : list Z :=
  map (fun i => (a + Z.of_nat i)%Z) (seq 0 n).

(** The value of the zone formulas and of the piecewise profile, when no
    check is involved. *)
Definition circ2 (R h rf hf s : double) : double :=
  c1 (s1 R h) - 2 * pi * (h + R * hf * rf) * (s - s1 R h) / (R * hf * rf).

Definition circ3 (R h rf hf s : double) : double :=
  circ2 R h rf hf (s2 R h rf hf) - 2 * pi * (s - s2 R h rf hf).

Definition circumference (R h rf hf s : double) : double :=
  if Rltb s (s1 R h) then c1 s
  else if Rltb s (s2 R h rf hf) then circ2 R h rf hf s
  else circ3 R h rf hf s.

(** The step, the ladder size and the samples, as values. *)
Definition ds_of (R h rf : double) (K : Z) : double :=
  (s3 R h rf - s1 R h) / IZR K.

Definition Kappa_of (R h rf hf : double) (K N : Z) : Z :=
  Zfloor (IZR K + circumference R h rf hf (s3 R h rf)
                  / (ds_of R h rf K * IZR N * 2)).

Definition profile_sample (R h rf hf ds : double) (k : Z) : co_t :=
  (sk R h ds k, circumference R h rf hf (sk R h ds k)).

Definition closure_sample (R h rf hf ds : double) (K N k : Z) : co_t :=
  (sk R h ds K,
   circumference R h rf hf (sk R h ds K) - ds * 2 * IZR N * IZR (k - K)).

Definition ladder (R h rf hf : double) (K N : Z) : co_vec_t :=
  let ds := ds_of R h rf K in
  let Kappa := Kappa_of R h rf hf K N in
  map (profile_sample R h rf hf ds) (Zseq 0 (Z.to_nat K))
  ++ map (closure_sample R h rf hf ds K N) (Zseq K (Z.to_nat (Kappa - K))).

(** The squared distance of a point from the origin. *)
Definition norm2 (p : co_t) : double := fst p * fst p + snd p * snd p.

(** The path data [print] writes for the points after the first. *)
Definition segments (show : double -> String.string) (ps : co_vec_t)
  : String.string :=
  fold_right
    (fun p rest => String.append (put_xy show " L "%string (fst p) (snd p)) rest)
    String.EmptyString ps.

(** The point [sctoxy] returns for a sample, as a value. *)
Definition to_xy (frac : double) (p : co_t) : co_t :=
  (fst p * cos (snd p * frac / fst p + 0), fst p * sin (snd p * frac / fst p + 0)).

(** The points of jag [n], in the order in which they are appended. *)
Definition jag_points (xy0 : co_vec_t) (dalpha : double) (n : Z) : co_vec_t :=
  map (fun p => rot p (IZR n * dalpha)) (rev xy0)
  ++ map (fun p => mirr (rot p (IZR n * dalpha)) ((IZR n + 0.5) * dalpha)) xy0.

(** The points of the star of the pipeline, from the ladder. *)
Definition star_points (R h rf hf : double) (K N : Z) : co_vec_t :=
  flat_map
    (jag_points (map (to_xy (0.5 / IZR N)) (ladder R h rf hf K N))
       (2 * pi / IZR N))
    (Zseq 0 (Z.to_nat N)).

(** * Properties *)

(** ** The result monad, comparisons and vectors *)

Lemma Rltb_true x y : x < y -> Rltb x y = true.
Proof. unfold Rltb; destruct (Rlt_dec x y); [reflexivity | contradiction]. Qed.

Lemma Rltb_false x y : y <= x -> Rltb x y = false.
Proof. unfold Rltb; destruct (Rlt_dec x y); [lra | reflexivity]. Qed.

Lemma Rleb_true x y : x <= y -> Rleb x y = true.
Proof. unfold Rleb; destruct (Rle_dec x y); [reflexivity | contradiction]. Qed.

Lemma Rleb_false x y : y < x -> Rleb x y = false.
Proof. unfold Rleb; destruct (Rle_dec x y); [lra | reflexivity]. Qed.

Lemma fdiv_ok a b : b <> 0 -> fdiv a b = Ok (a / b).
Proof. unfold fdiv; destruct (Req_dec_T b 0); [contradiction | reflexivity]. Qed.

Lemma fdiv_zero a : fdiv a 0 = Fault DivisionByZero.
Proof. unfold fdiv; destruct (Req_dec_T 0 0); [reflexivity | lra]. Qed.

Lemma to_int_ok (z : Z) : (int_min <= z <= int_max)%Z -> to_int z = Ok z.
Proof.
  intros [Hlo Hhi]. unfold to_int.
  apply Z.leb_le in Hlo, Hhi. now rewrite Hlo, Hhi.
Qed.


Lemma pi_pos : 0 < pi.
Proof. unfold pi; lra. Qed.

Lemma get_nat {A : Type} (C : list A) (i : nat) :
  get C (Z.of_nat i) = match nth_error C i with
                       | Some a => Ok a
                       | None => Fault OutOfRange
                       end.
Proof.
  unfold get. destruct (Z.ltb_spec (Z.of_nat i) 0); [lia |].
  now rewrite Nat2Z.id.
Qed.

Lemma get_app_mid {A : Type} (pre post : list A) (x : A) :
  get (pre ++ x :: post) (Z.of_nat (length pre)) = Ok x.
Proof.
  rewrite get_nat, nth_error_app2, Nat.sub_diag by lia. reflexivity.
Qed.

Lemma upd_app_mid {A : Type} (pre post : list A) (x v : A) :
  upd (pre ++ x :: post) (length pre) v = pre ++ v :: post.
Proof. induction pre as [| a pre IH]; simpl; [reflexivity | now rewrite IH]. Qed.

Lemma Zseq_S a n : Zseq a (S n) = a :: Zseq (a + 1) n.
Proof.
  unfold Zseq. simpl. rewrite Z.add_0_r. f_equal.
  rewrite <- seq_shift, map_map. apply map_ext. intros i. lia.
Qed.

Lemma Zseq_length a n : length (Zseq a n) = n.
Proof. unfold Zseq. now rewrite length_map, length_seq. Qed.

Lemma Zseq_nth_error a n i :
  (i < n)%nat -> nth_error (Zseq a n) i = Some (a + Z.of_nat i)%Z.
Proof.
  intros Hi. unfold Zseq.
  rewrite nth_error_map, nth_error_seq.
  destruct (Nat.ltb_spec i n); [reflexivity | lia].
Qed.

Lemma Zseq_In a n k : In k (Zseq a n) <-> (a <= k < a + Z.of_nat n)%Z.
Proof.
  unfold Zseq. rewrite in_map_iff. split.
  - intros (i & <- & Hi). apply in_seq in Hi. lia.
  - intros Hk. exists (Z.to_nat (k - a)). split; [lia |]. apply in_seq. lia.
Qed.

(** A loop that writes slot [k] at iteration [k] fills a range of the vector. *)
Lemma for_up_fill_list {A : Type} (f : Z -> A) (body : Z -> list A -> result (list A)) :
  forall n pre rest,
    (forall k pre' x post, In k (Zseq (Z.of_nat (length pre)) n) ->
       k = Z.of_nat (length pre') ->
       body k (pre' ++ x :: post) = Ok (pre' ++ f k :: post)) ->
    (n <= length rest)%nat ->
    for_up n (Z.of_nat (length pre)) body (pre ++ rest)
    = Ok (pre ++ map f (Zseq (Z.of_nat (length pre)) n) ++ skipn n rest).
Proof.
  induction n as [| n IH]; intros pre rest Hbody Hlen.
  - reflexivity.
  - destruct rest as [| x rest]; [simpl in Hlen; lia |].
    cbn [for_up]. rewrite (Hbody _ pre x rest); [| rewrite Zseq_S; now left | reflexivity].
    cbn [bind]. rewrite Zseq_S. cbn [map skipn].
    replace (pre ++ f (Z.of_nat (length pre)) :: rest)
      with ((pre ++ [f (Z.of_nat (length pre))]) ++ rest)
      by now rewrite <- app_assoc.
    replace (Z.of_nat (length pre) + 1)%Z
      with (Z.of_nat (length (pre ++ [f (Z.of_nat (length pre))])))
      by (rewrite length_app; simpl; lia).
    rewrite IH.
    + rewrite <- !app_assoc. reflexivity.
    + intros k pre' x' post Hk Hpre'. apply Hbody; [| exact Hpre'].
      rewrite Zseq_S. right.
      rewrite length_app in Hk. simpl in Hk.
      now replace (Z.of_nat (length pre) + 1)%Z
        with (Z.of_nat (length pre + 1)) by lia.
    + simpl in Hlen. lia.
Qed.

Lemma for_up_fill (f : Z -> co_t) (body : Z -> co_vec_t -> result co_vec_t) :
  forall n pre rest,
    (forall k pre' x post, In k (Zseq (Z.of_nat (length pre)) n) ->
       k = Z.of_nat (length pre') ->
       body k (pre' ++ x :: post) = Ok (pre' ++ f k :: post)) ->
    (n <= length rest)%nat ->
    for_up n (Z.of_nat (length pre)) body (pre ++ rest)
    = Ok (pre ++ map f (Zseq (Z.of_nat (length pre)) n) ++ skipn n rest).
Proof. exact (for_up_fill_list f body). Qed.

(** ** The profile *)

Section ProfileFacts.

Variables R h rf hf : double.
Variable N : Z.
Hypothesis Hv : valid R h rf hf N.

Lemma valid_divisor : R * hf * rf <> 0.
Proof.
  destruct Hv as (HR & _ & [Hrf _] & [Hhf _] & _).
  assert (0 < R * hf * rf); [| lra].
  apply Rmult_lt_0_compat; [apply Rmult_lt_0_compat |]; assumption.
Qed.

Lemma valid_N : 0 < IZR N.
Proof. destruct Hv as (_ & _ & _ & _ & HN). now apply IZR_lt. Qed.

Lemma breakpoints : 0 < s1 R h /\ s1 R h < s2 R h rf hf /\ s2 R h rf hf <= s3 R h rf.
Proof.
  destruct Hv as (HR & Hh & [Hrf Hrf1] & [Hhf Hhf1] & _).
  assert (H1 : 0 < hf * rf) by now apply Rmult_lt_0_compat.
  assert (H2 : hf * rf <= rf) by nra.
  unfold s1, s2, s3. repeat split; nra.
Qed.

Lemma preconditions_ok : preconditions R h rf hf N = Ok tt.
Proof.
  destruct Hv as (HR & Hh & [Hrf Hrf1] & [Hhf Hhf1] & HN).
  unfold preconditions.
  rewrite !Rleb_true, !Rltb_true by assumption.
  destruct (Z.ltb_spec 0 N); [reflexivity | lia].
Qed.

Lemma c2_ok s : c2 R h rf hf s = Ok (circ2 R h rf hf s).
Proof. unfold c2. rewrite fdiv_ok by apply valid_divisor. reflexivity. Qed.

Lemma c3_ok s : c3 R h rf hf s = Ok (circ3 R h rf hf s).
Proof. unfold c3. rewrite c2_ok. reflexivity. Qed.

Lemma c_ok s : 0 <= s -> c R h rf hf s = Ok (circumference R h rf hf s).
Proof.
  intros Hs. unfold c, circumference. rewrite Rleb_true by assumption.
  cbn [assert bind].
  destruct (Rltb s (s1 R h)); [reflexivity |].
  destruct (Rltb s (s2 R h rf hf)); [apply c2_ok | apply c3_ok].
Qed.

(** Zone 2 is a line through [(s1, c1 s1)] with slope [-2 pi m], where
    [m = (h + R hf rf) / (R hf rf) >= 1]. *)
Lemma circ2_line s :
  circ2 R h rf hf s
  = 2 * pi * s1 R h - 2 * pi * ((h + R * hf * rf) / (R * hf * rf)) * (s - s1 R h).
Proof.
  destruct Hv as (HR & _ & [Hrf _] & [Hhf _] & _).
  unfold circ2, c1. field. repeat split; lra.
Qed.

Lemma slope2_ge_1 : 1 <= (h + R * hf * rf) / (R * hf * rf).
Proof.
  destruct Hv as (HR & Hh & [Hrf _] & [Hhf _] & _).
  assert (Hd : 0 < R * hf * rf)
    by (apply Rmult_lt_0_compat; [apply Rmult_lt_0_compat |]; assumption).
  replace ((h + R * hf * rf) / (R * hf * rf))
    with (h / (R * hf * rf) + 1) by (field; lra).
  assert (0 <= h / (R * hf * rf)); [| lra].
  apply Rmult_le_pos; [assumption |].
  left. now apply Rinv_0_lt_compat.
Qed.

Lemma circ2_s2 : circ2 R h rf hf (s2 R h rf hf) = 2 * pi * R * (1 - hf * rf).
Proof.
  destruct Hv as (HR & _ & [Hrf _] & [Hhf _] & _).
  unfold circ2, c1, s1, s2. field. repeat split; lra.
Qed.

Lemma circ3_line s :
  circ3 R h rf hf s = 2 * pi * R * (1 - hf * rf) - 2 * pi * (s - s2 R h rf hf).
Proof. unfold circ3. rewrite circ2_s2. reflexivity. Qed.

Lemma circumference_zone2 s :
  s1 R h <= s < s2 R h rf hf -> circumference R h rf hf s = circ2 R h rf hf s.
Proof.
  intros [H1 H2]. unfold circumference.
  now rewrite Rltb_false, Rltb_true.
Qed.

Lemma circumference_zone3 s :
  s2 R h rf hf <= s -> circumference R h rf hf s = circ3 R h rf hf s.
Proof.
  intros H2. pose proof breakpoints as (_ & H12 & _). unfold circumference.
  rewrite !Rltb_false; [reflexivity | lra | lra].
Qed.

Lemma circumference_s3 : circumference R h rf hf (s3 R h rf) = 2 * pi * R * (1 - rf).
Proof.
  pose proof breakpoints as (_ & _ & H23).
  rewrite circumference_zone3, circ3_line by assumption.
  unfold s2, s3. ring.
Qed.

Lemma circumference_s3_nonneg : 0 <= circumference R h rf hf (s3 R h rf).
Proof.
  rewrite circumference_s3.
  destruct Hv as (HR & _ & [_ Hrf1] & _). pose proof pi_pos.
  apply Rmult_le_pos; [apply Rmult_le_pos |]; lra.
Qed.

(** The profile does not increase from [s1] on. *)
Lemma circumference_antitone a b :
  s1 R h <= a -> a <= b ->
  circumference R h rf hf b <= circumference R h rf hf a.
Proof.
  intros Ha Hab.
  pose proof pi_pos as Hpi. pose proof slope2_ge_1 as Hm.
  pose proof breakpoints as (_ & H12 & _).
  set (m := (h + R * hf * rf) / (R * hf * rf)) in *.
  assert (H22 : circ2 R h rf hf (s2 R h rf hf) = 2 * pi * R * (1 - hf * rf))
    by apply circ2_s2.
  rewrite circ2_line in H22. fold m in H22.
  assert (Hpm : 0 <= pi * m) by (apply Rmult_le_pos; lra).
  destruct (Rlt_dec b (s2 R h rf hf)) as [Hb | Hb].
  - rewrite !circumference_zone2, !circ2_line by lra. fold m.
    assert (0 <= pi * m * (b - a)) by (apply Rmult_le_pos; lra). lra.
  - destruct (Rlt_dec a (s2 R h rf hf)) as [Ha2 | Ha2].
    + rewrite (circumference_zone2 a), (circumference_zone3 b) by lra.
      rewrite circ2_line, circ3_line.
      fold m.
      assert (0 <= pi * m * (s2 R h rf hf - a)) by (apply Rmult_le_pos; lra).
      assert (0 <= pi * (b - s2 R h rf hf)) by (apply Rmult_le_pos; lra).
      lra.
    + rewrite !circumference_zone3, !circ3_line by lra.
      assert (0 <= pi * (b - a)) by (apply Rmult_le_pos; lra). lra.
Qed.

End ProfileFacts.

(** ** The sampler *)

Lemma set_first_mid (pre post : co_vec_t) (x : co_t) (v : double) :
  set_first (pre ++ x :: post) (Z.of_nat (length pre)) v
  = Ok (pre ++ (v, snd x) :: post).
Proof.
  unfold set_first. rewrite get_app_mid. cbn [bind].
  now rewrite Nat2Z.id, upd_app_mid.
Qed.

Lemma set_second_mid (pre post : co_vec_t) (x : co_t) (v : double) :
  set_second (pre ++ x :: post) (Z.of_nat (length pre)) v
  = Ok (pre ++ (fst x, v) :: post).
Proof.
  unfold set_second. rewrite get_app_mid. cbn [bind].
  now rewrite Nat2Z.id, upd_app_mid.
Qed.

Lemma skipn_repeat_sub {A : Type} (z : A) (n m : nat) :
  skipn n (repeat z m) = repeat z (m - n).
Proof.
  revert m; induction n as [| n IH]; intros m.
  - now rewrite Nat.sub_0_r.
  - destruct m as [| m]; [reflexivity | apply IH].
Qed.

Section SamplerFacts.

Variables R h rf hf : double.
Variables K N : Z.
Hypothesis Hv : valid R h rf hf N.
Hypothesis HK : (1 <= K)%Z.

Local Abbreviation ds := (ds_of R h rf K).
Local Abbreviation Kappa := (Kappa_of R h rf hf K N).

Lemma K_pos : 0 < IZR K.
Proof. apply IZR_lt. lia. Qed.

Lemma ds_eq : ds = R * rf / IZR K.
Proof. pose proof K_pos. unfold ds_of, s1, s3. field. lra. Qed.

Lemma ds_pos : 0 < ds.
Proof.
  destruct Hv as (HR & _ & [Hrf _] & _). pose proof K_pos.
  rewrite ds_eq. apply Rdiv_lt_0_compat; [apply Rmult_lt_0_compat |]; assumption.
Qed.

Lemma tail_divisor_pos : 0 < ds * IZR N * 2.
Proof.
  pose proof ds_pos. pose proof (valid_N R h rf hf N Hv) as HN.
  apply Rmult_lt_0_compat; [apply Rmult_lt_0_compat |]; lra.
Qed.

Lemma step_ok : step R h rf K = Ok ds.
Proof. pose proof K_pos. unfold step. rewrite fdiv_ok by lra. reflexivity. Qed.

Lemma sk_K : sk R h ds K = s3 R h rf.
Proof. pose proof K_pos. unfold sk, ds_of. field. lra. Qed.

Lemma sk_lower k : (0 <= k)%Z -> s1 R h <= sk R h ds k.
Proof.
  intros Hk. pose proof ds_pos. apply IZR_le in Hk. unfold sk.
  assert (0 <= ds * IZR k) by (apply Rmult_le_pos; lra). lra.
Qed.

Lemma sk_increasing j k : (j < k)%Z -> sk R h ds j < sk R h ds k.
Proof.
  intros Hjk. pose proof ds_pos. apply IZR_lt in Hjk. unfold sk.
  assert (ds * IZR j < ds * IZR k) by (apply Rmult_lt_compat_l; lra). lra.
Qed.

Lemma sk_nonneg k : (0 <= k)%Z -> 0 <= sk R h ds k.
Proof.
  intros Hk. pose proof (sk_lower k Hk).
  pose proof (breakpoints R h rf hf N Hv) as (H1 & _). lra.
Qed.

Lemma tail_count_value : tail_count R h rf hf ds K N = to_int Kappa.
Proof.
  unfold tail_count.
  pose proof (breakpoints R h rf hf N Hv) as (H1 & H12 & H23).
  rewrite (c_ok R h rf hf N Hv) by lra. cbn [bind].
  pose proof tail_divisor_pos. rewrite fdiv_ok by lra. reflexivity.
Qed.

Lemma Kappa_ge_K : (K <= Kappa)%Z.
Proof.
  apply Zfloor_lub.
  pose proof (circumference_s3_nonneg R h rf hf N Hv).
  pose proof tail_divisor_pos.
  assert (0 <= circumference R h rf hf (s3 R h rf) / (ds_of R h rf K * IZR N * 2)).
  { apply Rmult_le_pos; [assumption |]. left. now apply Rinv_0_lt_compat. }
  lra.
Qed.

Lemma tail_count_ok : (Kappa <= int_max)%Z -> tail_count R h rf hf ds K N = Ok Kappa.
Proof.
  intros Hmax. pose proof Kappa_ge_K.
  rewrite tail_count_value. apply to_int_ok. unfold int_min. lia.
Qed.

Lemma fill_profile_mid (pre post : co_vec_t) (x : co_t) :
  fill_profile R h rf hf (ds_of R h rf K) (Z.of_nat (length pre)) (pre ++ x :: post)
  = Ok (pre ++ profile_sample R h rf hf (ds_of R h rf K) (Z.of_nat (length pre)) :: post).
Proof.
  unfold fill_profile. rewrite set_first_mid. cbn [bind].
  rewrite get_app_mid. cbn [bind fst].
  rewrite (c_ok R h rf hf N Hv) by (apply sk_nonneg; lia).
  cbn [bind]. rewrite set_second_mid. reflexivity.
Qed.

Lemma fill_closure_mid (pre post : co_vec_t) (x : co_t) :
  fill_closure R h rf hf (ds_of R h rf K) K N (Z.of_nat (length pre)) (pre ++ x :: post)
  = Ok (pre ++ closure_sample R h rf hf (ds_of R h rf K) K N (Z.of_nat (length pre)) :: post).
Proof.
  unfold fill_closure. rewrite set_first_mid. cbn [bind].
  rewrite (c_ok R h rf hf N Hv) by (apply sk_nonneg; lia).
  cbn [bind]. rewrite set_second_mid. reflexivity.
Qed.

(** Over the reals, under its preconditions, with at least one profile
    sample and a Kappa that fits an [int], [contour] returns the ladder. *)
Lemma contour_ok :
  (Kappa <= int_max)%Z -> contour R h rf hf K N = Ok (ladder R h rf hf K N).
Proof.
  intros Hmax. pose proof Kappa_ge_K as HKappa.
  unfold contour.
  rewrite (preconditions_ok R h rf hf N Hv). cbn [bind].
  rewrite step_ok. cbn [bind].
  rewrite (tail_count_ok Hmax). cbn [bind].
  destruct (Z.leb_spec K Kappa) as [_ | Hlt]; [| lia]. cbn [assert bind].
  unfold vector_n. destruct (Z.ltb_spec Kappa 0) as [Hneg | _]; [lia |].
  cbn [bind].
  pose proof (for_up_fill (profile_sample R h rf hf ds) (fill_profile R h rf hf ds)
                (Z.to_nat K) [] (repeat (0, 0) (Z.to_nat Kappa))) as H1.
  cbn [length app] in H1. change (Z.of_nat 0) with 0%Z in H1.
  rewrite H1; clear H1.
  - cbn [bind]. rewrite skipn_repeat_sub.
    set (pre := map (profile_sample R h rf hf ds) (Zseq 0 (Z.to_nat K))).
    assert (Hpre : Z.of_nat (length pre) = K)
      by (unfold pre; rewrite length_map, Zseq_length; lia).
    replace (Z.to_nat Kappa - Z.to_nat K)%nat with (Z.to_nat (Kappa - K)) by lia.
    pose proof (for_up_fill (closure_sample R h rf hf ds K N)
                  (fill_closure R h rf hf ds K N) (Z.to_nat (Kappa - K)) pre
                  (repeat (0, 0) (Z.to_nat (Kappa - K)))) as H2.
    rewrite Hpre in H2. refine (eq_trans (H2 _ _) _); clear H2.
    + intros k pre' x post _ ->. apply fill_closure_mid.
    + rewrite repeat_length. lia.
    + rewrite skipn_all2 by (rewrite repeat_length; lia).
      rewrite app_nil_r. reflexivity.
  - intros k pre' x post _ ->. apply fill_profile_mid.
  - rewrite repeat_length. lia.
Qed.

Lemma ladder_length : Z.of_nat (length (ladder R h rf hf K N)) = Kappa_of R h rf hf K N.
Proof.
  pose proof Kappa_ge_K.
  unfold ladder. rewrite length_app, !length_map, !Zseq_length. lia.
Qed.

(** The samples of the ladder, by index. *)
Lemma ladder_profile (k : Z) :
  (0 <= k < K)%Z ->
  nth_error (ladder R h rf hf K N) (Z.to_nat k)
  = Some (profile_sample R h rf hf (ds_of R h rf K) k).
Proof.
  intros Hk. unfold ladder.
  rewrite nth_error_app1 by (rewrite length_map, Zseq_length; lia).
  rewrite nth_error_map, Zseq_nth_error by lia.
  cbn [option_map]. do 2 f_equal. lia.
Qed.

Lemma ladder_closure (k : Z) :
  (K <= k < Kappa_of R h rf hf K N)%Z ->
  nth_error (ladder R h rf hf K N) (Z.to_nat k)
  = Some (closure_sample R h rf hf (ds_of R h rf K) K N k).
Proof.
  intros Hk. unfold ladder.
  rewrite nth_error_app2 by (rewrite length_map, Zseq_length; lia).
  rewrite length_map, Zseq_length.
  rewrite nth_error_map, Zseq_nth_error by lia.
  cbn [option_map]. do 2 f_equal. lia.
Qed.

End SamplerFacts.

(** ** The coordinate mapper *)

Lemma sctoxy_ok s c o :
  s <> 0 -> sctoxy s c o = Ok (s * cos (c / s + o), s * sin (c / s + o)).
Proof. intros Hs. unfold sctoxy. rewrite fdiv_ok by assumption. reflexivity. Qed.

Lemma map_nth_Zseq {A B : Type} (g : A -> B) (d : A) (l : list A) :
  map (fun k => g (nth (Z.to_nat k) l d)) (Zseq 0 (length l)) = map g l.
Proof.
  apply nth_error_ext. intros n.
  destruct (Nat.lt_ge_cases n (length l)) as [Hn | Hn].
  - rewrite !nth_error_map, Zseq_nth_error by assumption.
    rewrite (nth_error_nth' l d) by assumption.
    cbn [option_map]. do 2 f_equal. f_equal. lia.
  - transitivity (@None B); [| symmetry]; apply nth_error_None;
      rewrite length_map; [rewrite Zseq_length |]; assumption.
Qed.

Section MapperFacts.

Variable sc0 : co_vec_t.
Variable frac : double.
Hypothesis Hs : forall p, In p sc0 -> fst p <> 0.

Lemma map_sample_mid (pre post : co_vec_t) (x : co_t) :
  (length pre < length sc0)%nat ->
  map_sample sc0 frac (Z.of_nat (length pre)) (pre ++ x :: post)
  = Ok (pre ++ to_xy frac (nth (length pre) sc0 (0, 0)) :: post).
Proof.
  intros Hlen. unfold map_sample.
  rewrite get_nat, (nth_error_nth' sc0 (0, 0)) by assumption. cbn [bind].
  rewrite sctoxy_ok by (apply Hs, nth_In; assumption). cbn [bind].
  rewrite get_app_mid. cbn [bind].
  now rewrite Nat2Z.id, upd_app_mid.
Qed.

End MapperFacts.

Lemma contourtoxy_ok (sc0 : co_vec_t) (N : Z) :
  N <> 0%Z -> (forall p, In p sc0 -> fst p <> 0) ->
  contourtoxy sc0 N = Ok (map (to_xy (0.5 / IZR N)) sc0).
Proof.
  intros HN Hs. unfold contourtoxy.
  rewrite fdiv_ok by (intros H0; apply eq_IZR in H0; contradiction).
  cbn [bind]. unfold vector_n.
  destruct (Z.ltb_spec (Z.of_nat (length sc0)) 0) as [Hneg | _]; [lia |].
  cbn [bind]. rewrite Nat2Z.id.
  pose proof (for_up_fill
                (fun k => to_xy (0.5 / IZR N) (nth (Z.to_nat k) sc0 (0, 0)))
                (map_sample sc0 (0.5 / IZR N)) (length sc0) []
                (repeat (0, 0) (length sc0))) as H1.
  cbn [length app] in H1. change (Z.of_nat 0) with 0%Z in H1.
  refine (eq_trans (H1 _ _) _); clear H1.
  - intros k pre x post Hk ->. apply Zseq_In in Hk.
    rewrite Nat2Z.id. apply map_sample_mid; [assumption | lia].
  - rewrite repeat_length. lia.
  - rewrite skipn_all2 by (rewrite repeat_length; lia).
    rewrite app_nil_r. f_equal. apply map_nth_Zseq.
Qed.

(** ** The symmetry expander *)

Section PushLoops.

Variable xy0 : co_vec_t.
Variable g : co_t -> co_t.
Variable body : Z -> co_vec_t -> result co_vec_t.
Hypothesis Hbody :
  forall i xy, body i xy = (p <- get xy0 i ;; Ok (xy ++ [g p])).

Lemma for_up_push (l : co_vec_t) :
  forall pre post xy, xy0 = pre ++ l ++ post ->
    for_up (length l) (Z.of_nat (length pre)) body xy = Ok (xy ++ map g l).
Proof.
  induction l as [| a l IH]; intros pre post xy Hxy0.
  - cbn. now rewrite app_nil_r.
  - cbn [length for_up]. rewrite Hbody, Hxy0. cbn [app].
    rewrite get_app_mid. cbn [bind].
    replace (Z.of_nat (length pre) + 1)%Z with (Z.of_nat (length (pre ++ [a])))
      by (rewrite length_app; simpl; lia).
    rewrite (IH (pre ++ [a]) post) by (now rewrite <- app_assoc).
    now rewrite <- app_assoc.
Qed.

Lemma for_down_push (l : co_vec_t) :
  forall post xy, xy0 = l ++ post ->
    for_down (length l) (Z.of_nat (length l) - 1) body xy
    = Ok (xy ++ map g (rev l)).
Proof.
  induction l as [| a l IH] using rev_ind; intros post xy Hxy0.
  - cbn. now rewrite app_nil_r.
  - rewrite length_app. cbn [length].
    replace (length l + 1)%nat with (S (length l)) by lia.
    cbn [for_down]. rewrite Hbody.
    replace (Z.of_nat (S (length l)) - 1)%Z with (Z.of_nat (length l)) by lia.
    rewrite Hxy0, <- app_assoc. cbn [app]. rewrite get_app_mid. cbn [bind].
    rewrite (IH (a :: post)) by (rewrite Hxy0, <- app_assoc; reflexivity).
    rewrite rev_app_distr. cbn [rev app map].
    now rewrite <- app_assoc.
Qed.

End PushLoops.

Lemma jag_ok xy0 dalpha n xy :
  jag xy0 dalpha n xy = Ok (xy ++ jag_points xy0 dalpha n).
Proof.
  unfold jag, jag_points.
  rewrite (for_down_push xy0 (fun p => rot p (IZR n * dalpha))
             (push_rot xy0 (IZR n * dalpha)) (fun i xy => eq_refl) xy0 [] xy)
    by now rewrite app_nil_r.
  cbn [bind].
  rewrite (for_up_push xy0
             (fun p => mirr (rot p (IZR n * dalpha)) ((IZR n + 0.5) * dalpha))
             (push_mirr xy0 (IZR n * dalpha) ((IZR n + 0.5) * dalpha))
             (fun i xy => eq_refl) xy0 [] [])
    by now rewrite app_nil_r.
  now rewrite <- app_assoc.
Qed.

Lemma jags_ok xy0 dalpha n :
  forall a xy,
    for_up n a (jag xy0 dalpha) xy
    = Ok (xy ++ flat_map (jag_points xy0 dalpha) (Zseq a n)).
Proof.
  induction n as [| n IH]; intros a xy.
  - cbn. now rewrite app_nil_r.
  - cbn [for_up]. rewrite jag_ok. cbn [bind].
    rewrite IH, Zseq_S. cbn [flat_map]. now rewrite <- app_assoc.
Qed.

Lemma jag_points_length xy0 dalpha n :
  length (jag_points xy0 dalpha n) = (2 * length xy0)%nat.
Proof.
  unfold jag_points. rewrite length_app, !length_map, length_rev. lia.
Qed.

Lemma flat_map_blocks_length {A B : Type} (f : A -> list B) (L : nat) (l : list A) :
  (forall a, length (f a) = L) -> length (flat_map f l) = (length l * L)%nat.
Proof.
  intros HL. induction l as [| a l IH]; [reflexivity |].
  cbn [flat_map length]. rewrite length_app, HL, IH. lia.
Qed.

Lemma flat_map_blocks_nth {A B : Type} (f : A -> list B) (L : nat) :
  (forall a, length (f a) = L) ->
  forall (l : list A) (i j : nat) (a : A),
    nth_error l i = Some a -> (j < L)%nat ->
    nth_error (flat_map f l) (i * L + j) = nth_error (f a) j.
Proof.
  intros HL. induction l as [| b l IH]; intros i j a Hi Hj.
  - destruct i; discriminate.
  - destruct i as [| i]; cbn [flat_map].
    + injection Hi as ->. cbn. apply nth_error_app1. now rewrite HL.
    + rewrite nth_error_app2 by (rewrite HL; lia).
      rewrite HL. replace (S i * L + j - L)%nat with (i * L + j)%nat by lia.
      now apply IH.
Qed.

(** With at least one jag, [xy0toN] returns the jags one after another. *)
Lemma xy0toN_ok (xy0 : co_vec_t) (N : Z) :
  (1 <= N)%Z ->
  xy0toN xy0 N
  = Ok (flat_map (jag_points xy0 (2 * pi / IZR N)) (Zseq 0 (Z.to_nat N))).
Proof.
  intros HN. unfold xy0toN.
  rewrite fdiv_ok by (apply not_0_IZR; lia). cbn [bind].
  rewrite jags_ok. cbn [bind app].
  rewrite (flat_map_blocks_length _ (2 * length xy0))
    by (intros a; apply jag_points_length).
  rewrite Zseq_length.
  destruct (Z.eqb_spec (Z.of_nat (Z.to_nat N * (2 * length xy0)))
              (2 * N * Z.of_nat (length xy0))) as [_ | Hne]; [reflexivity | lia].
Qed.

Lemma jag_points_descending xy0 dalpha n j d :
  (j < length xy0)%nat ->
  nth_error (jag_points xy0 dalpha n) j
  = Some (rot (nth (length xy0 - 1 - j) xy0 d) (IZR n * dalpha)).
Proof.
  intros Hj. unfold jag_points.
  rewrite nth_error_app1 by (rewrite length_map, length_rev; assumption).
  rewrite nth_error_map, (nth_error_nth' (rev xy0) d)
    by (rewrite length_rev; assumption).
  rewrite rev_nth by assumption. cbn [option_map].
  do 3 f_equal. lia.
Qed.

Lemma jag_points_ascending xy0 dalpha n j d :
  (j < length xy0)%nat ->
  nth_error (jag_points xy0 dalpha n) (length xy0 + j)
  = Some (mirr (rot (nth j xy0 d) (IZR n * dalpha)) ((IZR n + 0.5) * dalpha)).
Proof.
  intros Hj. unfold jag_points.
  rewrite nth_error_app2 by (rewrite length_map, length_rev; lia).
  rewrite length_map, length_rev.
  replace (length xy0 + j - length xy0)%nat with j by lia.
  now rewrite nth_error_map, (nth_error_nth' xy0 d) by assumption.
Qed.

(** ** The ladder, sample by sample *)

Lemma ladder_nth_cases (R h rf hf : double) (K N : Z) (i : nat) (p : co_t) :
  valid R h rf hf N -> (1 <= K)%Z ->
  nth_error (ladder R h rf hf K N) i = Some p ->
  ((Z.of_nat i < K)%Z
   /\ p = profile_sample R h rf hf (ds_of R h rf K) (Z.of_nat i))
  \/ ((K <= Z.of_nat i < Kappa_of R h rf hf K N)%Z
      /\ p = closure_sample R h rf hf (ds_of R h rf K) K N (Z.of_nat i)).
Proof.
  intros Hv HK Hp.
  assert (Hi : (i < length (ladder R h rf hf K N))%nat)
    by (apply nth_error_Some; congruence).
  pose proof (ladder_length R h rf hf K N Hv HK) as Hlen.
  destruct (Z.lt_ge_cases (Z.of_nat i) K) as [Hlt | Hge]; [left | right].
  - split; [assumption |].
    pose proof (ladder_profile R h rf hf K N HK (Z.of_nat i)) as H1.
    rewrite Nat2Z.id in H1. rewrite H1 in Hp by lia. congruence.
  - split; [lia |].
    pose proof (ladder_closure R h rf hf K N HK (Z.of_nat i)) as H1.
    rewrite Nat2Z.id in H1. rewrite H1 in Hp by lia. congruence.
Qed.

Lemma ladder_arc_length_lower (R h rf hf : double) (K N : Z) (p : co_t) :
  valid R h rf hf N -> (1 <= K)%Z ->
  In p (ladder R h rf hf K N) -> s1 R h <= fst p.
Proof.
  intros Hv HK Hp. apply In_nth_error in Hp as [k Hp].
  destruct (ladder_nth_cases R h rf hf K N k p Hv HK Hp) as [[Hi ->] | [Hi ->]];
    cbn [profile_sample closure_sample fst];
    apply (sk_lower R h rf hf K N Hv HK); lia.
Qed.

(** ** What a returned ladder is, in exact arithmetic *)

Lemma contour_Ok_ladder (R h rf hf : double) (K N : Z) (sc0 : co_vec_t) :
  valid R h rf hf N -> (1 <= K)%Z ->
  contour R h rf hf K N = Ok sc0 ->
  sc0 = ladder R h rf hf K N /\ (Kappa_of R h rf hf K N <= int_max)%Z.
Proof.
  intros Hv HK Hrun.
  destruct (Z.le_gt_cases (Kappa_of R h rf hf K N) int_max) as [Hle | Hgt].
  - rewrite (contour_ok R h rf hf K N Hv HK Hle) in Hrun.
    injection Hrun as <-. now split.
  - exfalso. unfold contour in Hrun.
    rewrite (preconditions_ok R h rf hf N Hv) in Hrun. cbn [bind] in Hrun.
    rewrite (step_ok R h rf K HK) in Hrun. cbn [bind] in Hrun.
    rewrite (tail_count_value R h rf hf K N Hv HK) in Hrun.
    unfold to_int in Hrun.
    destruct (Z.leb_spec (Kappa_of R h rf hf K N) int_max) as [Hle | _]; [lia |].
    rewrite andb_false_r in Hrun. discriminate.
Qed.

Lemma run_values (R h rf hf : double) (K N : Z) (sc0 : co_vec_t)
  (ds cs3 : double) :
  valid R h rf hf N -> (1 <= K)%Z ->
  contour R h rf hf K N = Ok sc0 ->
  step R h rf K = Ok ds ->
  c R h rf hf (s3 R h rf) = Ok cs3 ->
  sc0 = ladder R h rf hf K N
  /\ ds = ds_of R h rf K
  /\ cs3 = circumference R h rf hf (s3 R h rf).
Proof.
  intros Hv HK Hrun Hstep Hc.
  pose proof (breakpoints R h rf hf N Hv) as (H1 & H12 & H23).
  rewrite (step_ok R h rf K HK) in Hstep. injection Hstep as <-.
  rewrite (c_ok R h rf hf N Hv) in Hc by lra. injection Hc as <-.
  split; [| split; reflexivity].
  now apply (contour_Ok_ladder R h rf hf K N).
Qed.

(** Over the reals, when [contour] returns for valid parameters and
    K >= 1, the rest of the pipeline runs to completion. *)
Lemma star_of_ladder (R h rf hf : double) (K N : Z) (sc0 : co_vec_t) :
  valid R h rf hf N -> (1 <= K)%Z ->
  contour R h rf hf K N = Ok sc0 ->
  star R h rf hf K N
  = Ok (flat_map (jag_points (map (to_xy (0.5 / IZR N)) sc0) (2 * pi / IZR N))
          (Zseq 0 (Z.to_nat N))).
Proof.
  intros Hv HK Hrun.
  pose proof (breakpoints R h rf hf N Hv) as (H1 & _).
  assert (HN : (1 <= N)%Z) by (destruct Hv as (_ & _ & _ & _ & HN0); lia).
  unfold star. rewrite Hrun. cbn [bind].
  destruct (contour_Ok_ladder R h rf hf K N sc0 Hv HK Hrun) as [-> _].
  rewrite contourtoxy_ok.
  - cbn [bind]. now apply xy0toN_ok.
  - lia.
  - intros p Hp. pose proof (ladder_arc_length_lower R h rf hf K N p Hv HK Hp). lra.
Qed.


(** A sample input: the end-to-end scenario R = 10, h = 1, rf = 0.3,
    hf = 0.4, N = 13 (and K = 10). *)
Lemma valid_scenario : valid 10 1 0.3 0.4 13.
Proof. unfold valid. repeat split; try lra; lia. Defined.


(** The end-to-end scenario has a ladder of 15 samples. *)
Lemma Kappa_scenario : Kappa_of 10 1 0.3 0.4 10 13 = 15%Z.
Proof.
  assert (HK : (1 <= 10)%Z) by lia.
  unfold Kappa_of.
  rewrite (circumference_s3 _ _ _ _ _ valid_scenario), (ds_eq 10 1 0.3 10 HK).
  apply Zfloor_eq. unfold pi. lra.
Qed.

Lemma contour_scenario :
  contour 10 1 0.3 0.4 10 13 = Ok (ladder 10 1 0.3 0.4 10 13).
Proof.
  apply (contour_ok _ _ _ _ _ _ valid_scenario); [lia |].
  rewrite Kappa_scenario. unfold int_max. lia.
Qed.

Lemma star_scenario :
  star 10 1 0.3 0.4 10 13 = Ok (star_points 10 1 0.3 0.4 10 13).
Proof.
  apply (star_of_ladder _ _ _ _ _ _ _ valid_scenario); [lia |].
  exact contour_scenario.
Qed.

(** ** The sampler in binary64 *)

Section Binary64Sampler.

Import PrimFloat.
Local Open Scope float_scope.

Variables R h rf hf : float.

Lemma b64_set_first_mid (pre post : B64.co_vec_t) (x : B64.co_t) (v : float) :
  B64.set_first (pre ++ x :: post) (Z.of_nat (length pre)) v
  = Ok (pre ++ (v, snd x) :: post).
Proof.
  unfold B64.set_first. rewrite get_app_mid. cbn [bind].
  now rewrite Nat2Z.id, upd_app_mid.
Qed.

Lemma b64_set_second_mid (pre post : B64.co_vec_t) (x : B64.co_t) (v : float) :
  B64.set_second (pre ++ x :: post) (Z.of_nat (length pre)) v
  = Ok (pre ++ (fst x, v) :: post).
Proof.
  unfold B64.set_second. rewrite get_app_mid. cbn [bind].
  now rewrite Nat2Z.id, upd_app_mid.
Qed.

Lemma b64_c_ok (s : float) :
  (0 <=? s) = true -> B64.c R h rf hf s = Ok (B64.circumference R h rf hf s).
Proof. intros Hs. unfold B64.c. rewrite Hs. reflexivity. Qed.

Lemma b64_fill_profile_mid (ds : float) (pre post : B64.co_vec_t) (x : B64.co_t) :
  (0 <=? B64.sk R h ds (Z.of_nat (length pre))) = true ->
  B64.fill_profile R h rf hf ds (Z.of_nat (length pre)) (pre ++ x :: post)
  = Ok (pre ++ B64.profile_sample R h rf hf ds (Z.of_nat (length pre)) :: post).
Proof.
  intros Hs. unfold B64.fill_profile. rewrite b64_set_first_mid. cbn [bind].
  rewrite get_app_mid. cbn [bind fst].
  rewrite (b64_c_ok _ Hs). cbn [bind].
  rewrite b64_set_second_mid. reflexivity.
Qed.

Lemma b64_fill_closure_mid (ds : float) (K N : Z)
  (pre post : B64.co_vec_t) (x : B64.co_t) :
  (0 <=? B64.sk R h ds K) = true ->
  B64.fill_closure R h rf hf ds K N (Z.of_nat (length pre)) (pre ++ x :: post)
  = Ok (pre ++ B64.closure_sample R h rf hf ds K N (Z.of_nat (length pre)) :: post).
Proof.
  intros Hs. unfold B64.fill_closure. rewrite b64_set_first_mid. cbn [bind].
  rewrite (b64_c_ok _ Hs). cbn [bind].
  rewrite b64_set_second_mid. reflexivity.
Qed.

(** A run of [contour] that gets past the conversion to [int] and the
    assertion Kappa >= K, with arc lengths that are not negative, returns
    the K profile samples followed by the Kappa - K closure samples. *)
Lemma b64_contour_run (K N Kappa : Z) :
  B64.preconditions R h rf hf N = Ok tt ->
  B64.tail_count R h rf hf (B64.step R h rf K) K N = Ok Kappa ->
  (0 <= K <= Kappa)%Z ->
  (forall k : Z, (0 <= k <= K)%Z ->
     (0 <=? B64.sk R h (B64.step R h rf K) k) = true) ->
  B64.contour R h rf hf K N
  = Ok (map (B64.profile_sample R h rf hf (B64.step R h rf K))
          (Zseq 0 (Z.to_nat K))
        ++ map (B64.closure_sample R h rf hf (B64.step R h rf K) K N)
             (Zseq K (Z.to_nat (Kappa - K)))).
Proof.
  intros Hpre Htail HK Hs.
  unfold B64.contour. rewrite Hpre. cbn [bind]. rewrite Htail. cbn [bind].
  set (ds := B64.step R h rf K) in *.
  destruct (Z.leb_spec K Kappa) as [_ | Hlt]; [| lia]. cbn [assert bind].
  unfold B64.vector_n. destruct (Z.ltb_spec Kappa 0) as [Hneg | _]; [lia |].
  cbn [bind].
  pose proof (for_up_fill_list (B64.profile_sample R h rf hf ds)
                (B64.fill_profile R h rf hf ds)
                (Z.to_nat K) [] (repeat (0, 0) (Z.to_nat Kappa))) as H1.
  cbn [length app] in H1. change (Z.of_nat 0) with 0%Z in H1.
  change (list B64.co_t) with B64.co_vec_t in H1.
  rewrite H1; clear H1.
  - cbn [bind]. rewrite skipn_repeat_sub.
    set (pre := map (B64.profile_sample R h rf hf ds) (Zseq 0 (Z.to_nat K))).
    assert (Hlen : Z.of_nat (length pre) = K)
      by (unfold pre; rewrite length_map, Zseq_length; lia).
    replace (Z.to_nat Kappa - Z.to_nat K)%nat with (Z.to_nat (Kappa - K)) by lia.
    pose proof (for_up_fill_list (B64.closure_sample R h rf hf ds K N)
                  (B64.fill_closure R h rf hf ds K N) (Z.to_nat (Kappa - K)) pre
                  (repeat (0, 0) (Z.to_nat (Kappa - K)))) as H2.
    rewrite Hlen in H2. refine (eq_trans (H2 _ _) _); clear H2.
    + intros k pre' x post _ ->. apply b64_fill_closure_mid. apply Hs. lia.
    + rewrite repeat_length. lia.
    + rewrite skipn_all2 by (rewrite repeat_length; lia).
      rewrite app_nil_r. reflexivity.
  - intros k pre' x post Hk ->. apply b64_fill_profile_mid. apply Hs.
    apply Zseq_In in Hk. lia.
  - rewrite repeat_length. lia.
Qed.

End Binary64Sampler.

(** * The properties of the specification, C1 to C10 *)

(** ** Runs in binary64: C1, C5, C9 and C10 *)

Section Binary64Runs.

Import PrimFloat.
#[local] Set Warnings "-inexact-float".
Local Open Scope float_scope.

(** C1, at R = 3, h = 1, rf = 1, hf = 0.75, K = 1, N = 1: the preconditions
    hold and ds = 3 > 0, but the zone formulas leave a circumference below
    zero at s3, the double handed to [floor] is below K, Kappa = 0 < K and
    the run ends in the assertion Kappa >= K.  [main] gets there from the
    scalars res = 1, h = 1, cmax = 20, rmin = 0, drmax = 3, hf = 0.75 and the
    radius 3. *)
Theorem C1_Kappa_below_K :
  B64.preconditions 3 1 1 0.75 1 = Ok tt
  /\ (0 <? B64.step 3 1 1 1) = true
  /\ (exists cs3 : float,
        B64.c 3 1 1 0.75 (B64.s3 3 1 1) = Ok cs3 /\ (cs3 <? 0) = true)
  /\ (exists x : float,
        B64.tail_arg 3 1 1 0.75 (B64.step 3 1 1 1) 1 1 = Ok x
        /\ (x <? B64.of_int 1) = true)
  /\ B64.tail_count 3 1 1 0.75 (B64.step 3 1 1 1) 1 1 = Ok 0%Z
  /\ B64.contour 3 1 1 0.75 1 1 = Fault (AssertFailed A_Kappa_ge_K)
  /\ B64.radtoN 3 20 = Ok 1%Z
  /\ B64.main_contour 1 1 20 0 3 0.75 3 = Fault (AssertFailed A_Kappa_ge_K).
Proof.
  split; [vm_compute; reflexivity |].
  split; [vm_compute; reflexivity |].
  split; [eexists; split; vm_compute; reflexivity |].
  split; [eexists; split; vm_compute; reflexivity |].
  repeat split; vm_compute; reflexivity.
Qed.

(** C5, at R = 1, h = 0, rf = 1e-15, hf = 1, K = 10, N = 2000000000: the
    preconditions hold and ds > 0, [contour] returns a ladder of 14148485
    samples, and the first two profile samples have the same arc length 1:
    ds is less than half the gap between s1 = 1 and the next double. *)
Theorem C5_profile_samples_coincide :
  B64.preconditions 1 0 1e-15 1 2000000000 = Ok tt
  /\ (0 <? B64.step 1 0 1e-15 10) = true
  /\ B64.sk 1 0 (B64.step 1 0 1e-15 10) 0 = 1
  /\ B64.sk 1 0 (B64.step 1 0 1e-15 10) 1 = 1
  /\ exists sc0 : B64.co_vec_t,
       B64.contour 1 0 1e-15 1 10 2000000000 = Ok sc0
       /\ Z.of_nat (length sc0) = 14148485%Z
       /\ exists p q : B64.co_t,
            nth_error sc0 0 = Some p /\ nth_error sc0 1 = Some q
            /\ fst p = 1 /\ fst q = 1 /\ (fst p <? fst q) = false.
Proof.
  split; [vm_compute; reflexivity |].
  split; [vm_compute; reflexivity |].
  split; [vm_compute; reflexivity |].
  split; [vm_compute; reflexivity |].
  eexists. split.
  - apply (b64_contour_run 1 0 1e-15 1 10 2000000000 14148485).
    + vm_compute; reflexivity.
    + vm_compute; reflexivity.
    + lia.
    + intros k Hk.
      assert (Hall : forallb (fun k => 0 <=? B64.sk 1 0 (B64.step 1 0 1e-15 10) k)
                       (Zseq 0 11) = true) by (vm_compute; reflexivity).
      rewrite forallb_forall in Hall. apply Hall. apply Zseq_In. lia.
  - split.
    + rewrite length_app, !length_map, !Zseq_length. lia.
    + exists (B64.profile_sample 1 0 1e-15 1 (B64.step 1 0 1e-15 10) 0),
        (B64.profile_sample 1 0 1e-15 1 (B64.step 1 0 1e-15 10) 1).
      assert (Hlen : length (map (B64.profile_sample 1 0 1e-15 1
                                    (B64.step 1 0 1e-15 10))
                               (Zseq 0 (Z.to_nat 10))) = 10%nat)
        by (rewrite length_map, Zseq_length; reflexivity).
      split; [rewrite nth_error_app1 by (rewrite Hlen; lia); reflexivity |].
      split; [rewrite nth_error_app1 by (rewrite Hlen; lia); reflexivity |].
      repeat split; vm_compute; reflexivity.
Qed.

(** C9, at R = 1, h = 0, rf = 1e-20, hf = 1, K = 1, N = 1: the preconditions
    hold and K > 0, but s3 = s1, so ds = 0 and the divisor ds * N * 2 is
    zero; the quotient is an infinity, whose conversion to [int] is
    undefined.  At R = 1e-160, h = 0, rf = hf = 1e-160 the preconditions
    hold and the divisor R * hf * rf of zone 2 is zero.  With K = 0 (R = 10,
    h = 1, rf = 0.3, hf = 0.4, N = 13) the preconditions hold, the division
    by K gives an infinite ds, Kappa = 0 and the run returns an empty
    ladder. *)
Theorem C9_zero_divisors :
  (B64.preconditions 1 0 1e-20 1 1 = Ok tt
   /\ B64.s3 1 0 1e-20 = B64.s1 1 0
   /\ B64.step 1 0 1e-20 1 = 0
   /\ B64.tail_divisor (B64.step 1 0 1e-20 1) 1 = 0
   /\ B64.tail_arg 1 0 1e-20 1 (B64.step 1 0 1e-20 1) 1 1 = Ok infinity
   /\ B64.contour 1 0 1e-20 1 1 1 = Fault UndefinedConversion)
  /\ (B64.preconditions 1e-160 0 1e-160 1e-160 1 = Ok tt
      /\ 1e-160 * 1e-160 * 1e-160 = 0
      /\ is_nan (B64.c2 1e-160 0 1e-160 1e-160 (B64.s1 1e-160 0)) = true)
  /\ (B64.preconditions 10 1 0.3 0.4 13 = Ok tt
      /\ B64.step 10 1 0.3 0 = infinity
      /\ B64.tail_count 10 1 0.3 0.4 (B64.step 10 1 0.3 0) 0 13 = Ok 0%Z
      /\ B64.contour 10 1 0.3 0.4 0 13 = Ok []).
Proof. repeat split; vm_compute; reflexivity. Qed.


End Binary64Runs.

(** ** The formulas and the layout: C2 to C8 *)




(** C3: for a sector xy0 of length I and N >= 1 jags, [xy0toN] returns a
    star in which, for n < N and j < I, the point at 2 n I + j is
    rot(xy0[I-1-j], n dalpha) and the point at 2 n I + I + j is
    mirr(rot(xy0[j], n dalpha), (n + 0.5) dalpha), with dalpha = 2 pi / N;
    rot is the rotation about the origin and mirr(p, c) = 2 (p.m) m - p for
    m = (cos c, sin c). *)
Theorem C3_star_layout (xy0 : co_vec_t) (N : Z) :
  (1 <= N)%Z ->
  exists xy : co_vec_t,
    xy0toN xy0 N = Ok xy
    /\ (forall (n j : nat) (d : co_t),
          (Z.of_nat n < N)%Z -> (j < length xy0)%nat ->
          nth_error xy (2 * n * length xy0 + j)
          = Some (rot (nth (length xy0 - 1 - j) xy0 d)
                    (IZR (Z.of_nat n) * (2 * pi / IZR N)))
          /\ nth_error xy (2 * n * length xy0 + length xy0 + j)
             = Some (mirr (rot (nth j xy0 d) (IZR (Z.of_nat n) * (2 * pi / IZR N)))
                       ((IZR (Z.of_nat n) + 0.5) * (2 * pi / IZR N))))
    /\ (forall x y alpha : double,
          rot (x, y) alpha
          = (x * cos alpha - y * sin alpha, x * sin alpha + y * cos alpha))
    /\ (forall x y a : double,
          mirr (x, y) a
          = (2 * (x * cos a + y * sin a) * cos a - x,
             2 * (x * cos a + y * sin a) * sin a - y)).
Proof.
  intros HN.
  exists (flat_map (jag_points xy0 (2 * pi / IZR N)) (Zseq 0 (Z.to_nat N))).
  split; [now apply xy0toN_ok |].
  split; [| split; reflexivity].
  intros n j d Hn Hj.
  assert (Hblock : forall a, length (jag_points xy0 (2 * pi / IZR N) a)
                             = (2 * length xy0)%nat)
    by (intros a; apply jag_points_length).
  assert (Hnth : nth_error (Zseq 0 (Z.to_nat N)) n = Some (Z.of_nat n))
    by (rewrite Zseq_nth_error by lia; reflexivity).
  split.
  - replace (2 * n * length xy0 + j)%nat with (n * (2 * length xy0) + j)%nat by lia.
    rewrite (flat_map_blocks_nth _ _ Hblock _ _ _ _ Hnth) by lia.
    now apply jag_points_descending.
  - replace (2 * n * length xy0 + length xy0 + j)%nat
      with (n * (2 * length xy0) + (length xy0 + j))%nat by lia.
    rewrite (flat_map_blocks_nth _ _ Hblock _ _ _ _ Hnth) by lia.
    now apply jag_points_ascending.
Qed.

Lemma C3_star_layout_witness :
  exists xy : co_vec_t,
    xy0toN [(1, 0); (2, 1)] 3 = Ok xy
    /\ (forall (n j : nat) (d : co_t),
          (Z.of_nat n < 3)%Z -> (j < length [(1, 0); (2, 1)])%nat ->
          nth_error xy (2 * n * length [(1, 0); (2, 1)] + j)
          = Some (rot (nth (length [(1, 0); (2, 1)] - 1 - j) [(1, 0); (2, 1)] d)
                    (IZR (Z.of_nat n) * (2 * pi / IZR 3)))
          /\ nth_error xy (2 * n * length [(1, 0); (2, 1)] + length [(1, 0); (2, 1)] + j)
             = Some (mirr (rot (nth j [(1, 0); (2, 1)] d)
                             (IZR (Z.of_nat n) * (2 * pi / IZR 3)))
                       ((IZR (Z.of_nat n) + 0.5) * (2 * pi / IZR 3))))
    /\ (forall x y alpha : double,
          rot (x, y) alpha
          = (x * cos alpha - y * sin alpha, x * sin alpha + y * cos alpha))
    /\ (forall x y a : double,
          mirr (x, y) a
          = (2 * (x * cos a + y * sin a) * cos a - x,
             2 * (x * cos a + y * sin a) * sin a - y)).
Proof. apply (C3_star_layout [(1, 0); (2, 1)] 3). lia. Defined.

(** C4: under the preconditions the zone formulas agree at the breakpoints:
    the zone-2 formula at s1 gives c1(s1), and the zone-3 formula at s2
    gives what the zone-2 formula gives there; the piecewise function [c]
    takes these common values at s1 and at s2. *)
Theorem C4_continuity (R h rf hf : double) (N : Z) :
  valid R h rf hf N ->
  c2 R h rf hf (s1 R h) = Ok (c1 (s1 R h))
  /\ c R h rf hf (s1 R h) = Ok (c1 (s1 R h))
  /\ exists v : double,
       c2 R h rf hf (s2 R h rf hf) = Ok v
       /\ c3 R h rf hf (s2 R h rf hf) = Ok v
       /\ c R h rf hf (s2 R h rf hf) = Ok v.
Proof.
  intros Hv.
  pose proof (breakpoints R h rf hf N Hv) as (H1 & H12 & H23).
  assert (E1 : circ2 R h rf hf (s1 R h) = c1 (s1 R h)).
  { rewrite (circ2_line R h rf hf N Hv). unfold c1. ring. }
  assert (E2 : circ3 R h rf hf (s2 R h rf hf) = circ2 R h rf hf (s2 R h rf hf)).
  { unfold circ3. ring. }
  split; [rewrite (c2_ok R h rf hf N Hv); now rewrite E1 |].
  split.
  - rewrite (c_ok R h rf hf N Hv) by lra.
    rewrite (circumference_zone2 R h rf hf) by lra. now rewrite E1.
  - exists (circ2 R h rf hf (s2 R h rf hf)).
    split; [apply (c2_ok R h rf hf N Hv) |].
    split; [rewrite (c3_ok R h rf hf N Hv); now rewrite E2 |].
    rewrite (c_ok R h rf hf N Hv) by lra.
    rewrite (circumference_zone3 R h rf hf N Hv) by lra. now rewrite E2.
Qed.

Lemma C4_continuity_witness :
  c2 10 1 0.3 0.4 (s1 10 1) = Ok (c1 (s1 10 1))
  /\ c 10 1 0.3 0.4 (s1 10 1) = Ok (c1 (s1 10 1))
  /\ exists v : double,
       c2 10 1 0.3 0.4 (s2 10 1 0.3 0.4) = Ok v
       /\ c3 10 1 0.3 0.4 (s2 10 1 0.3 0.4) = Ok v
       /\ c 10 1 0.3 0.4 (s2 10 1 0.3 0.4) = Ok v.
Proof. exact (C4_continuity 10 1 0.3 0.4 13 valid_scenario). Defined.

(** C6: for a sector of length I and N >= 1 jags, [xy0toN] returns a star of
    exactly 2 N I points (and its closing assertion on that size holds). *)
Theorem C6_star_size (xy0 : co_vec_t) (N : Z) :
  (1 <= N)%Z ->
  exists xy : co_vec_t,
    xy0toN xy0 N = Ok xy
    /\ Z.of_nat (length xy) = (2 * N * Z.of_nat (length xy0))%Z.
Proof.
  intros HN.
  exists (flat_map (jag_points xy0 (2 * pi / IZR N)) (Zseq 0 (Z.to_nat N))).
  split; [now apply xy0toN_ok |].
  rewrite (flat_map_blocks_length _ (2 * length xy0))
    by (intros a; apply jag_points_length).
  rewrite Zseq_length. lia.
Qed.

Lemma C6_star_size_witness :
  exists xy : co_vec_t,
    xy0toN [(1, 0); (2, 1)] 3 = Ok xy
    /\ Z.of_nat (length xy) = (2 * 3 * Z.of_nat (length [(1, 0); (2, 1)]))%Z.
Proof. apply (C6_star_size [(1, 0); (2, 1)] 3). lia. Defined.

(** C7: with N >= 1 and every arc length s of the ladder positive,
    [contourtoxy] maps each sample (s, c) to the point
    (s cos(c/(2N)/s), s sin(c/(2N)/s)), whose squared distance from the
    origin is s^2. *)
Theorem C7_polar_round_trip (sc0 : co_vec_t) (N : Z) :
  (1 <= N)%Z -> (forall p : co_t, In p sc0 -> 0 < fst p) ->
  exists xy0 : co_vec_t,
    contourtoxy sc0 N = Ok xy0
    /\ length xy0 = length sc0
    /\ forall (i : nat) (s cv : double),
         nth_error sc0 i = Some (s, cv) ->
         exists x y : double,
           nth_error xy0 i = Some (x, y)
           /\ x = s * cos (cv / (2 * IZR N) / s)
           /\ y = s * sin (cv / (2 * IZR N) / s)
           /\ x * x + y * y = s * s.
Proof.
  intros HN Hs.
  assert (HN' : 0 < IZR N) by (apply IZR_lt; lia).
  exists (map (to_xy (0.5 / IZR N)) sc0).
  split.
  - apply contourtoxy_ok; [lia |].
    intros p Hp. specialize (Hs p Hp). lra.
  - split; [apply length_map |].
    intros i s cv Hi.
    assert (Hpos : 0 < s) by (apply (Hs (s, cv)); eapply nth_error_In; eassumption).
    assert (H05 : 0.5 = 1 / 2) by lra.
    assert (Ha : cv * (0.5 / IZR N) / s + 0 = cv / (2 * IZR N) / s)
      by (rewrite H05; field; split; lra).
    exists (s * cos (cv / (2 * IZR N) / s)), (s * sin (cv / (2 * IZR N) / s)).
    split; [| split; [reflexivity | split; [reflexivity |]]].
    + rewrite nth_error_map, Hi. cbn [option_map]. unfold to_xy. cbn [fst snd].
      now rewrite Ha.
    + pose proof (sin2_cos2 (cv / (2 * IZR N) / s)) as Hsc.
      unfold Rsqr in Hsc.
      set (co := cos (cv / (2 * IZR N) / s)) in *.
      set (si := sin (cv / (2 * IZR N) / s)) in *.
      replace (s * co * (s * co) + s * si * (s * si))
        with (s * s * (si * si + co * co)) by ring.
      rewrite Hsc. ring.
Qed.

Lemma C7_polar_round_trip_witness :
  exists xy0 : co_vec_t,
    contourtoxy [(1, 1); (2, 3)] 4 = Ok xy0
    /\ length xy0 = length [(1, 1); (2, 3)]
    /\ forall (i : nat) (s cv : double),
         nth_error [(1, 1); (2, 3)] i = Some (s, cv) ->
         exists x y : double,
           nth_error xy0 i = Some (x, y)
           /\ x = s * cos (cv / (2 * IZR 4) / s)
           /\ y = s * sin (cv / (2 * IZR 4) / s)
           /\ x * x + y * y = s * s.
Proof.
  apply (C7_polar_round_trip [(1, 1); (2, 3)] 4); [lia |].
  intros p [<- | [<- | []]]; cbn [fst]; lra.
Defined.

(** C8: when a precondition is violated (rf <= 0, hf <= 0, rf > 1, hf > 1,
    R <= 0, h < 0 or N <= 0), [contour] ends in the failure of one of its
    seven leading assertions, whatever K is: the run returns no ladder and
    does not get to a division, so in particular not to the one by
    R * hf * rf of zone 2, and the pipeline for that radius ends with it. *)
Theorem C8_precondition_violation_is_fatal (R h rf hf : double) (K N : Z) :
  rf <= 0 \/ hf <= 0 \/ 1 < rf \/ 1 < hf \/ R <= 0 \/ h < 0 \/ (N <= 0)%Z ->
  exists a : assertion,
    In a precondition_assertions
    /\ preconditions R h rf hf N = Fault (AssertFailed a)
    /\ contour R h rf hf K N = Fault (AssertFailed a)
    /\ contour R h rf hf K N <> Fault DivisionByZero
    /\ (forall sc0 : co_vec_t, contour R h rf hf K N <> Ok sc0)
    /\ star R h rf hf K N = Fault (AssertFailed a).
Proof.
  intros Hbad.
  assert (Hpre : exists a, In a precondition_assertions
                   /\ preconditions R h rf hf N = Fault (AssertFailed a)).
  { unfold preconditions, precondition_assertions, Rleb, Rltb.
    destruct (Rle_dec rf 1);
      [| eexists; split; [| reflexivity]; simpl; tauto].
    destruct (Rle_dec hf 1);
      [| eexists; split; [| reflexivity]; simpl; tauto].
    destruct (Rlt_dec 0 rf);
      [| eexists; split; [| reflexivity]; simpl; tauto].
    destruct (Rlt_dec 0 hf);
      [| eexists; split; [| reflexivity]; simpl; tauto].
    destruct (Z.ltb_spec 0 N);
      [| eexists; split; [| reflexivity]; simpl; tauto].
    destruct (Rlt_dec 0 R);
      [| eexists; split; [| reflexivity]; simpl; tauto].
    destruct (Rle_dec 0 h);
      [| eexists; split; [| reflexivity]; simpl; tauto].
    exfalso.
    destruct Hbad as [Hb | [Hb | [Hb | [Hb | [Hb | [Hb | Hb]]]]]]; try lra; lia. }
  destruct Hpre as (a & Ha & Hfail).
  assert (Hrun : contour R h rf hf K N = Fault (AssertFailed a))
    by (unfold contour; rewrite Hfail; reflexivity).
  exists a. unfold star. rewrite Hrun.
  repeat split; try assumption; intros; discriminate.
Qed.

Lemma C8_precondition_violation_is_fatal_witness :
  exists a : assertion,
    In a precondition_assertions
    /\ preconditions 10 1 0 0.4 13 = Fault (AssertFailed a)
    /\ contour 10 1 0 0.4 10 13 = Fault (AssertFailed a)
    /\ contour 10 1 0 0.4 10 13 <> Fault DivisionByZero
    /\ (forall sc0 : co_vec_t, contour 10 1 0 0.4 10 13 <> Ok sc0)
    /\ star 10 1 0 0.4 10 13 = Fault (AssertFailed a).
Proof.
  apply (C8_precondition_violation_is_fatal 10 1 0 0.4 10 13).
  left. lra.
Defined.

(** * Further properties of the code *)

(** ** Rotation and reflection *)

Lemma sin_cos_sq (a : double) : sin a * sin a + cos a * cos a = 1.
Proof. exact (sin2_cos2 a). Qed.

(** X1: reflecting twice about the same axis gives the point back. *)
Theorem X1_mirr_involution (p : co_t) (a : double) :
  mirr (mirr p a) a = p.
Proof.
  destruct p as [x y]. unfold mirr, mirr_xy. cbn [fst snd].
  pose proof (sin_cos_sq a) as H.
  set (ca := cos a) in *. set (sa := sin a) in *.
  f_equal.
  - replace (2 * ((2 * (x * ca + y * sa) * ca - x) * ca
                  + (2 * (x * ca + y * sa) * sa - y) * sa) * ca
             - (2 * (x * ca + y * sa) * ca - x))
      with (x + 4 * (x * ca + y * sa) * ca * (sa * sa + ca * ca - 1)) by ring.
    rewrite H. ring.
  - replace (2 * ((2 * (x * ca + y * sa) * ca - x) * ca
                  + (2 * (x * ca + y * sa) * sa - y) * sa) * sa
             - (2 * (x * ca + y * sa) * sa - y))
      with (y + 4 * (x * ca + y * sa) * sa * (sa * sa + ca * ca - 1)) by ring.
    rewrite H. ring.
Qed.

Lemma rot_rot (p : co_t) (a b : double) : rot (rot p a) b = rot p (a + b).
Proof.
  destruct p as [x y]. unfold rot, rot_xy. cbn [fst snd].
  rewrite cos_plus, sin_plus. f_equal; ring.
Qed.

Lemma rot_0 (p : co_t) : rot p 0 = p.
Proof.
  destruct p as [x y]. unfold rot, rot_xy. cbn [fst snd].
  rewrite cos_0, sin_0. f_equal; ring.
Qed.

(** X2: rotations compose by adding their angles, the rotation by 0 is the
    identity, and so a rotation is undone by the opposite one. *)
Theorem X2_rot_composition (p : co_t) (a b : double) :
  rot (rot p a) b = rot p (a + b)
  /\ rot p 0 = p
  /\ rot (rot p a) (- a) = p.
Proof.
  split; [apply rot_rot |]. split; [apply rot_0 |].
  rewrite rot_rot. replace (a + - a) with 0 by ring. apply rot_0.
Qed.

Lemma rot_norm2 (p : co_t) (a : double) : norm2 (rot p a) = norm2 p.
Proof.
  destruct p as [x y]. unfold norm2, rot, rot_xy. cbn [fst snd].
  pose proof (sin_cos_sq a) as H.
  set (ca := cos a) in *. set (sa := sin a) in *.
  replace ((x * ca - y * sa) * (x * ca - y * sa)
           + (x * sa + y * ca) * (x * sa + y * ca))
    with ((x * x + y * y) * (sa * sa + ca * ca)) by ring.
  rewrite H. ring.
Qed.

Lemma mirr_norm2 (p : co_t) (a : double) : norm2 (mirr p a) = norm2 p.
Proof.
  destruct p as [x y]. unfold norm2, mirr, mirr_xy. cbn [fst snd].
  pose proof (sin_cos_sq a) as H.
  set (ca := cos a) in *. set (sa := sin a) in *.
  replace ((2 * (x * ca + y * sa) * ca - x) * (2 * (x * ca + y * sa) * ca - x)
           + (2 * (x * ca + y * sa) * sa - y) * (2 * (x * ca + y * sa) * sa - y))
    with (x * x + y * y
          + 4 * (x * ca + y * sa) * (x * ca + y * sa) * (sa * sa + ca * ca - 1))
    by ring.
  rewrite H. ring.
Qed.

(** X3: [rot] and [mirr] keep the distance of a point from the origin. *)
Theorem X3_isometries (p : co_t) (a : double) :
  norm2 (rot p a) = norm2 p /\ norm2 (mirr p a) = norm2 p.
Proof. split; [apply rot_norm2 | apply mirr_norm2]. Qed.

Lemma mirr_as_rot (x y a : double) : mirr (x, y) a = rot (x, - y) (2 * a).
Proof.
  unfold mirr, mirr_xy, rot, rot_xy. cbn [fst snd].
  rewrite cos_2a, sin_2a.
  pose proof (sin_cos_sq a) as H.
  set (ca := cos a) in *. set (sa := sin a) in *.
  f_equal.
  - replace (2 * (x * ca + y * sa) * ca - x)
      with (x * (ca * ca - sa * sa) - - y * (2 * sa * ca)
            + x * (sa * sa + ca * ca - 1)) by ring.
    rewrite H. ring.
  - replace (2 * (x * ca + y * sa) * sa - y)
      with (x * (2 * sa * ca) + - y * (ca * ca - sa * sa)
            + y * (sa * sa + ca * ca - 1)) by ring.
    rewrite H. ring.
Qed.

Lemma mirr_0 (x y : double) : mirr (x, y) 0 = (x, - y).
Proof.
  unfold mirr, mirr_xy. cbn [fst snd]. rewrite cos_0, sin_0. f_equal; ring.
Qed.

(** X4: the reflection about the axis at angle a is the reflection about
    the x axis followed by the rotation by 2a; after a rotation by b the
    rotation left is the one by 2a - b. *)
Theorem X4_mirr_is_flip_then_rot (p : co_t) (a b : double) :
  mirr p 0 = (fst p, - snd p)
  /\ mirr p a = rot (mirr p 0) (2 * a)
  /\ mirr (rot p b) a = rot (mirr p 0) (2 * a - b).
Proof.
  destruct p as [x y]. cbn [fst snd].
  split; [apply mirr_0 |].
  split; [rewrite mirr_0; apply mirr_as_rot |].
  rewrite mirr_0.
  assert (Hflip : forall q c, (fst (rot q c), - snd (rot q c))
                              = rot (fst q, - snd q) (- c)).
  { intros [u v] c. unfold rot, rot_xy. cbn [fst snd].
    rewrite cos_neg, sin_neg. f_equal; ring. }
  destruct (rot (x, y) b) as [u v] eqn:E.
  rewrite mirr_as_rot.
  change (u, - v) with (fst (u, v), - snd (u, v)). rewrite <- E, Hflip.
  cbn [fst snd]. rewrite rot_rot. f_equal. ring.
Qed.

(** X5: the points a reflection leaves in place are those of its axis. *)
Theorem X5_mirr_fixed_points (p : co_t) (a : double) :
  mirr p a = p <-> exists t : double, p = (t * cos a, t * sin a).
Proof.
  destruct p as [x y]. unfold mirr, mirr_xy. cbn [fst snd].
  pose proof (sin_cos_sq a) as H.
  set (ca := cos a) in *. set (sa := sin a) in *.
  split.
  - intros E. injection E as Ex Ey.
    exists (x * ca + y * sa). f_equal; lra.
  - intros [t E]. injection E as -> ->. f_equal.
    + replace (2 * (t * ca * ca + t * sa * sa) * ca - t * ca)
        with (t * ca + 2 * t * ca * (sa * sa + ca * ca - 1)) by ring.
      rewrite H. ring.
    + replace (2 * (t * ca * ca + t * sa * sa) * sa - t * sa)
        with (t * sa + 2 * t * sa * (sa * sa + ca * ca - 1)) by ring.
      rewrite H. ring.
Qed.

(** ** The polar mapping *)

(** X6: in exact arithmetic and for s <> 0, the offset o rotates the point
    that [sctoxy] gives without offset, which lies at distance |s| from the
    origin. *)
Theorem X6_sctoxy_offset (s cv o : double) :
  s <> 0 ->
  exists q : co_t,
    sctoxy s cv 0 = Ok q
    /\ sctoxy s cv o = Ok (rot q o)
    /\ norm2 q = s * s.
Proof.
  intros Hs. exists (s * cos (cv / s + 0), s * sin (cv / s + 0)).
  split; [now apply sctoxy_ok |].
  split.
  - rewrite sctoxy_ok by assumption. apply (f_equal (@Ok co_t)).
    unfold rot, rot_xy. cbn [fst snd].
    rewrite Rplus_0_r, cos_plus, sin_plus. f_equal; ring.
  - unfold norm2. cbn [fst snd].
    pose proof (sin_cos_sq (cv / s + 0)) as H.
    set (ca := cos (cv / s + 0)) in *. set (sa := sin (cv / s + 0)) in *.
    replace (s * ca * (s * ca) + s * sa * (s * sa))
      with (s * s * (sa * sa + ca * ca)) by ring.
    rewrite H. ring.
Qed.

Lemma X6_sctoxy_offset_witness :
  exists q : co_t,
    sctoxy 2 1 0 = Ok q
    /\ sctoxy 2 1 3 = Ok (rot q 3)
    /\ norm2 q = 2 * 2.
Proof. apply (X6_sctoxy_offset 2 1 3). lra. Defined.

(** ** The ladder stays above zero and inside its wedge *)

Lemma circumference_strict (R h rf hf : double) (N : Z) (a b : double) :
  valid R h rf hf N -> s1 R h <= a -> a < b ->
  circumference R h rf hf b < circumference R h rf hf a.
Proof.
  intros Hv Ha Hab.
  pose proof pi_pos as Hpi.
  pose proof (slope2_ge_1 R h rf hf N Hv) as Hm.
  pose proof (breakpoints R h rf hf N Hv) as (_ & H12 & _).
  pose proof (circ2_s2 R h rf hf N Hv) as H22.
  rewrite (circ2_line R h rf hf N Hv) in H22.
  set (m := (h + R * hf * rf) / (R * hf * rf)) in *.
  assert (Hpm : 0 < pi * m) by (apply Rmult_lt_0_compat; lra).
  destruct (Rlt_dec b (s2 R h rf hf)) as [Hb | Hb].
  - rewrite !(circumference_zone2 R h rf hf) by lra.
    rewrite !(circ2_line R h rf hf N Hv). fold m.
    assert (0 < pi * m * (b - a)) by (apply Rmult_lt_0_compat; lra). lra.
  - destruct (Rlt_dec a (s2 R h rf hf)) as [Ha2 | Ha2].
    + rewrite (circumference_zone2 R h rf hf a) by lra.
      rewrite (circumference_zone3 R h rf hf N Hv b) by lra.
      rewrite (circ2_line R h rf hf N Hv), (circ3_line R h rf hf N Hv). fold m.
      assert (0 < pi * m * (s2 R h rf hf - a)) by (apply Rmult_lt_0_compat; lra).
      assert (0 <= pi * (b - s2 R h rf hf)) by (apply Rmult_le_pos; lra).
      lra.
    + rewrite !(circumference_zone3 R h rf hf N Hv) by lra.
      rewrite !(circ3_line R h rf hf N Hv).
      assert (0 < pi * (b - a)) by (apply Rmult_lt_0_compat; lra). lra.
Qed.

Lemma circumference_s1 (R h rf hf : double) (N : Z) :
  valid R h rf hf N -> circumference R h rf hf (s1 R h) = 2 * pi * s1 R h.
Proof.
  intros Hv. pose proof (breakpoints R h rf hf N Hv) as (_ & H12 & _).
  rewrite (circumference_zone2 R h rf hf) by lra.
  rewrite (circ2_line R h rf hf N Hv). ring.
Qed.

Section LadderBounds.

Variables R h rf hf : double.
Variables K N : Z.
Hypothesis Hv : valid R h rf hf N.
Hypothesis HK : (1 <= K)%Z.

Local Abbreviation ds := (ds_of R h rf K).
Local Abbreviation Kappa := (Kappa_of R h rf hf K N).
Local Abbreviation cs3 := (circumference R h rf hf (s3 R h rf)).

Lemma tail_step_pos : 0 < ds * 2 * IZR N.
Proof. pose proof (tail_divisor_pos R h rf hf K N Hv HK). lra. Qed.

Lemma tail_floor_bounds :
  ds * 2 * IZR N * IZR (Kappa - K) <= cs3
  /\ cs3 < ds * 2 * IZR N * (IZR (Kappa - K) + 1).
Proof.
  pose proof (tail_divisor_pos R h rf hf K N Hv HK) as Hd.
  pose proof (ds_pos R h rf hf K N Hv HK) as Hds.
  pose proof (valid_N R h rf hf N Hv) as HN.
  assert (Hb : IZR Kappa <= IZR K + cs3 / (ds * IZR N * 2)
               /\ IZR K + cs3 / (ds * IZR N * 2) < IZR Kappa + 1)
    by apply Zfloor_bound.
  destruct Hb as [Hlo Hhi]. rewrite minus_IZR.
  assert (E : cs3 = ds * IZR N * 2 * (cs3 / (ds * IZR N * 2)))
    by (field; repeat split; lra).
  split.
  - assert (H : ds * IZR N * 2 * (IZR Kappa - IZR K)
                <= ds * IZR N * 2 * (cs3 / (ds * IZR N * 2)))
      by (apply Rmult_le_compat_l; lra).
    lra.
  - assert (H : ds * IZR N * 2 * (cs3 / (ds * IZR N * 2))
                < ds * IZR N * 2 * (IZR Kappa - IZR K + 1))
      by (apply Rmult_lt_compat_l; lra).
    lra.
Qed.

Lemma profile_above_s3 (k : Z) :
  (0 <= k < K)%Z -> cs3 < snd (profile_sample R h rf hf ds k).
Proof.
  intros Hk. cbn [profile_sample snd].
  rewrite <- (sk_K R h rf K HK).
  apply (circumference_strict R h rf hf N); [assumption | |].
  - apply (sk_lower R h rf hf K N Hv HK). lia.
  - apply (sk_increasing R h rf hf K N Hv HK). lia.
Qed.

Lemma profile_below_s1 (k : Z) :
  (0 <= k)%Z -> snd (profile_sample R h rf hf ds k) <= 2 * pi * s1 R h.
Proof.
  intros Hk. cbn [profile_sample snd].
  rewrite <- (circumference_s1 R h rf hf N Hv).
  apply (circumference_antitone R h rf hf N Hv); [lra |].
  apply (sk_lower R h rf hf K N Hv HK). lia.
Qed.

Lemma closure_value (k : Z) :
  snd (closure_sample R h rf hf ds K N k) = cs3 - ds * 2 * IZR N * IZR (k - K).
Proof. cbn [closure_sample snd]. now rewrite (sk_K R h rf K HK). Qed.

Lemma closure_above_step (k : Z) :
  (K <= k < Kappa)%Z -> ds * 2 * IZR N <= snd (closure_sample R h rf hf ds K N k).
Proof.
  intros Hk. rewrite closure_value.
  pose proof tail_floor_bounds as [Hlo _]. pose proof tail_step_pos as Hd.
  assert (Hz : (k - K + 1 <= Kappa - K)%Z) by lia.
  apply IZR_le in Hz. rewrite plus_IZR in Hz.
  assert (ds * 2 * IZR N * (IZR (k - K) + 1) <= ds * 2 * IZR N * IZR (Kappa - K))
    by (apply Rmult_le_compat_l; lra).
  lra.
Qed.

Lemma closure_below_s3 (k : Z) :
  (K <= k)%Z -> snd (closure_sample R h rf hf ds K N k) <= cs3.
Proof.
  intros Hk. rewrite closure_value. pose proof tail_step_pos as Hd.
  assert (Hz : (0 <= k - K)%Z) by lia. apply IZR_le in Hz.
  assert (0 <= ds * 2 * IZR N * IZR (k - K)) by (apply Rmult_le_pos; lra).
  lra.
Qed.

End LadderBounds.

(** X9: in exact arithmetic, a ladder that [contour] returns for valid
    parameters and K >= 1 has at least K samples, all with a strictly
    positive circumference: the profile samples lie strictly above
    circumference(s3), and the closure tail stops at least one step
    ds * 2 * N above zero; its last sample is less than two steps above
    zero. *)
Theorem X9_ladder_positive (R h rf hf : double) (K N : Z) (sc0 : co_vec_t)
  (ds cs3 : double) :
  valid R h rf hf N -> (1 <= K)%Z ->
  contour R h rf hf K N = Ok sc0 ->
  step R h rf K = Ok ds ->
  c R h rf hf (s3 R h rf) = Ok cs3 ->
  (K <= Z.of_nat (length sc0))%Z
  /\ (forall p : co_t, In p sc0 -> 0 < snd p)
  /\ (forall (k : nat) (p : co_t),
        (Z.of_nat k < K)%Z -> nth_error sc0 k = Some p -> cs3 < snd p)
  /\ (forall (k : nat) (p : co_t),
        (K <= Z.of_nat k)%Z -> nth_error sc0 k = Some p ->
        ds * 2 * IZR N <= snd p)
  /\ (forall p : co_t,
        (K < Z.of_nat (length sc0))%Z ->
        nth_error sc0 (length sc0 - 1) = Some p ->
        snd p < 2 * (ds * 2 * IZR N)).
Proof.
  intros Hv HK Hrun Hstep Hc.
  destruct (run_values R h rf hf K N sc0 ds cs3 Hv HK Hrun Hstep Hc)
    as (-> & -> & ->).
  pose proof (breakpoints R h rf hf N Hv) as (H1 & H12 & H23).
  pose proof (circumference_s3_nonneg R h rf hf N Hv) as Hc3.
  pose proof (tail_step_pos R h rf hf K N Hv HK) as Hd.
  pose proof (ladder_length R h rf hf K N Hv HK) as Hlen.
  pose proof (Kappa_ge_K R h rf hf K N Hv HK) as HKappa.
  split; [lia |].
  split; [| split; [| split]].
  - intros p Hp. apply In_nth_error in Hp as [k Hp].
    destruct (ladder_nth_cases R h rf hf K N k p Hv HK Hp) as [[Hi ->] | [Hi ->]].
    + assert (Hk : (0 <= Z.of_nat k < K)%Z) by lia.
      pose proof (profile_above_s3 R h rf hf K N Hv HK (Z.of_nat k) Hk). lra.
    + pose proof (closure_above_step R h rf hf K N Hv HK (Z.of_nat k) Hi). lra.
  - intros k p Hk Hp.
    destruct (ladder_nth_cases R h rf hf K N k p Hv HK Hp) as [[Hi ->] | [Hi _]];
      [| lia].
    apply (profile_above_s3 R h rf hf K N Hv HK). lia.
  - intros k p Hk Hp.
    destruct (ladder_nth_cases R h rf hf K N k p Hv HK Hp) as [[Hi _] | [Hi ->]];
      [lia |].
    now apply (closure_above_step R h rf hf K N Hv HK).
  - intros p Hlast Hp.
    destruct (ladder_nth_cases R h rf hf K N _ p Hv HK Hp) as [[Hi _] | [Hi ->]];
      [lia |].
    rewrite (closure_value R h rf hf K N HK).
    pose proof (tail_floor_bounds R h rf hf K N Hv HK) as [_ Hhi].
    replace (Z.of_nat (length (ladder R h rf hf K N) - 1) - K)%Z
      with (Kappa_of R h rf hf K N - K - 1)%Z by lia.
    rewrite (minus_IZR (Kappa_of R h rf hf K N - K) 1). lra.
Qed.

Lemma X9_ladder_positive_witness :
  (10 <= Z.of_nat (length (ladder 10 1 0.3 0.4 10 13)))%Z
  /\ (forall p : co_t, In p (ladder 10 1 0.3 0.4 10 13) -> 0 < snd p)
  /\ (forall (k : nat) (p : co_t),
        (Z.of_nat k < 10)%Z -> nth_error (ladder 10 1 0.3 0.4 10 13) k = Some p ->
        circumference 10 1 0.3 0.4 (s3 10 1 0.3) < snd p)
  /\ (forall (k : nat) (p : co_t),
        (10 <= Z.of_nat k)%Z -> nth_error (ladder 10 1 0.3 0.4 10 13) k = Some p ->
        ds_of 10 1 0.3 10 * 2 * IZR 13 <= snd p)
  /\ (forall p : co_t,
        (10 < Z.of_nat (length (ladder 10 1 0.3 0.4 10 13)))%Z ->
        nth_error (ladder 10 1 0.3 0.4 10 13)
          (length (ladder 10 1 0.3 0.4 10 13) - 1) = Some p ->
        snd p < 2 * (ds_of 10 1 0.3 10 * 2 * IZR 13)).
Proof.
  assert (HK : (1 <= 10)%Z) by lia.
  pose proof (breakpoints _ _ _ _ _ valid_scenario) as (H1 & H12 & H23).
  apply (X9_ladder_positive 10 1 0.3 0.4 10 13 _ _ _ valid_scenario HK).
  - exact contour_scenario.
  - now apply step_ok.
  - apply (c_ok _ _ _ _ _ valid_scenario). lra.
Defined.

Lemma ladder_first (R h rf hf : double) (K N : Z) :
  valid R h rf hf N -> (1 <= K)%Z ->
  nth_error (ladder R h rf hf K N) 0 = Some (s1 R h, 2 * pi * s1 R h).
Proof.
  intros Hv HK.
  pose proof (ladder_profile R h rf hf K N HK 0) as H0.
  cbn [Z.to_nat] in H0. rewrite H0 by lia.
  unfold profile_sample.
  replace (sk R h (ds_of R h rf K) 0) with (s1 R h) by (unfold sk; ring).
  now rewrite (circumference_s1 R h rf hf N Hv).
Qed.

Lemma ladder_snd_upper (R h rf hf : double) (K N : Z) (p : co_t) :
  valid R h rf hf N -> (1 <= K)%Z ->
  In p (ladder R h rf hf K N) -> snd p <= 2 * pi * s1 R h.
Proof.
  intros Hv HK Hp. apply In_nth_error in Hp as [k Hp].
  pose proof (breakpoints R h rf hf N Hv) as (H1 & H12 & H23).
  destruct (ladder_nth_cases R h rf hf K N k p Hv HK Hp) as [[Hi ->] | [Hi ->]].
  - apply (profile_below_s1 R h rf hf K N Hv HK). lia.
  - assert (Hk : (K <= Z.of_nat k)%Z) by lia.
    pose proof (closure_below_s3 R h rf hf K N Hv HK (Z.of_nat k) Hk) as Hc.
    pose proof (circumference_antitone R h rf hf N Hv (s1 R h) (s3 R h rf)) as Ha.
    rewrite (circumference_s1 R h rf hf N Hv) in Ha. lra.
Qed.

(** X10: in exact arithmetic, a ladder that [contour] returns for valid
    parameters and K >= 1 starts at (R + h, 2 pi (R + h)), and the angle
    c * (0.5 / N) / s that [contourtoxy] gives a sample lies in the half-open
    wedge from 0 (excluded) to half of dalpha = 2 pi / N, which the first
    sample attains. *)
Theorem X10_ladder_wedge (R h rf hf : double) (K N : Z) (sc0 : co_vec_t) :
  valid R h rf hf N -> (1 <= K)%Z ->
  contour R h rf hf K N = Ok sc0 ->
  nth_error sc0 0 = Some (R + h, 2 * pi * (R + h))
  /\ 2 * pi * (R + h) * (0.5 / IZR N) / (R + h) = 0.5 * (2 * pi / IZR N)
  /\ forall p : co_t, In p sc0 ->
       0 < snd p * (0.5 / IZR N) / fst p <= 0.5 * (2 * pi / IZR N).
Proof.
  intros Hv HK Hrun.
  destruct (contour_Ok_ladder R h rf hf K N sc0 Hv HK Hrun) as [-> _].
  pose proof (breakpoints R h rf hf N Hv) as (H1 & _).
  pose proof (valid_N R h rf hf N Hv) as HN.
  pose proof pi_pos as Hpi.
  assert (H05 : 0.5 = 1 / 2) by lra.
  split; [exact (ladder_first R h rf hf K N Hv HK) |].
  split; [unfold s1 in H1; rewrite H05; field; split; lra |].
  intros [s cv] Hp.
  pose proof (ladder_arc_length_lower R h rf hf K N _ Hv HK Hp) as Hs.
  pose proof (ladder_snd_upper R h rf hf K N _ Hv HK Hp) as Hc.
  assert (Hpos : 0 < cv).
  { pose proof (circumference_s3_nonneg R h rf hf N Hv) as Hc3.
    pose proof (tail_step_pos R h rf hf K N Hv HK) as Hd.
    apply In_nth_error in Hp as [k Hp].
    destruct (ladder_nth_cases R h rf hf K N k _ Hv HK Hp) as [[Hi E] | [Hi E]];
      apply (f_equal snd) in E; cbn [snd] in E; rewrite E.
    - assert (Hk : (0 <= Z.of_nat k < K)%Z) by lia.
      pose proof (profile_above_s3 R h rf hf K N Hv HK (Z.of_nat k) Hk) as Hp3.
      lra.
    - pose proof (closure_above_step R h rf hf K N Hv HK (Z.of_nat k) Hi) as Hcl.
      lra. }
  cbn [fst snd] in *.
  assert (Hinv : 0 < / (IZR N * s)) by (apply Rinv_0_lt_compat, Rmult_lt_0_compat; lra).
  split.
  - replace (cv * (0.5 / IZR N) / s) with (cv * / 2 * / (IZR N * s))
      by (rewrite H05; field; split; lra).
    apply Rmult_lt_0_compat; lra.
  - assert (Hdiff : 0.5 * (2 * pi / IZR N) - cv * (0.5 / IZR N) / s
                    = (pi * s - cv / 2) * / (IZR N * s))
      by (rewrite H05; field; split; lra).
    assert (0 <= (pi * s - cv / 2) * / (IZR N * s)).
    { apply Rmult_le_pos; [| lra].
      assert (pi * s1 R h <= pi * s) by (apply Rmult_le_compat_l; lra). lra. }
    lra.
Qed.

Lemma X10_ladder_wedge_witness :
  nth_error (ladder 10 1 0.3 0.4 10 13) 0 = Some (10 + 1, 2 * pi * (10 + 1))
  /\ 2 * pi * (10 + 1) * (0.5 / IZR 13) / (10 + 1) = 0.5 * (2 * pi / IZR 13)
  /\ forall p : co_t, In p (ladder 10 1 0.3 0.4 10 13) ->
       0 < snd p * (0.5 / IZR 13) / fst p <= 0.5 * (2 * pi / IZR 13).
Proof.
  apply (X10_ladder_wedge 10 1 0.3 0.4 10 13 _ valid_scenario); [lia |].
  exact contour_scenario.
Defined.

(** ** The symmetry of the star *)

Lemma mirr_rot (p : co_t) (a b : double) :
  mirr (rot p b) a = rot (fst p, - snd p) (2 * a - b).
Proof.
  destruct p as [x y].
  assert (Hflip : rot (x, y) b
                  = (fst (rot (x, - y) (- b)), - snd (rot (x, - y) (- b)))).
  { unfold rot, rot_xy. cbn [fst snd]. rewrite cos_neg, sin_neg. f_equal; ring. }
  rewrite Hflip, mirr_as_rot, Ropp_involutive.
  destruct (rot (x, - y) (- b)) as [u v] eqn:E. cbn [fst snd].
  rewrite <- E, rot_rot. f_equal. ring.
Qed.

Lemma rot_mirr (p : co_t) (a b : double) :
  rot (mirr p a) b = mirr (rot p b) (a + b).
Proof.
  rewrite mirr_rot. destruct p as [x y]. rewrite mirr_as_rot, rot_rot.
  cbn [fst snd]. f_equal. ring.
Qed.

Lemma jag_points_succ (xy0 : co_vec_t) (dalpha : double) (n : Z) :
  jag_points xy0 dalpha (n + 1)
  = map (fun p => rot p dalpha) (jag_points xy0 dalpha n).
Proof.
  unfold jag_points. rewrite map_app, !map_map, plus_IZR. f_equal.
  - apply map_ext. intros p. rewrite rot_rot. f_equal. ring.
  - apply map_ext. intros p. rewrite rot_mirr, rot_rot. f_equal; [f_equal |]; ring.
Qed.

(** X12: the star has the rotational symmetry of order N: each jag is the
    one before it rotated by dalpha = 2 pi / N, point by point. *)
Theorem X12_star_rotational_symmetry (xy0 : co_vec_t) (N : Z) :
  (1 <= N)%Z ->
  exists xy : co_vec_t,
    xy0toN xy0 N = Ok xy
    /\ forall (n m : nat) (q : co_t),
         (Z.of_nat n + 1 < N)%Z -> (m < 2 * length xy0)%nat ->
         nth_error xy (2 * n * length xy0 + m) = Some q ->
         nth_error xy (2 * (n + 1) * length xy0 + m)
         = Some (rot q (2 * pi / IZR N)).
Proof.
  intros HN.
  exists (flat_map (jag_points xy0 (2 * pi / IZR N)) (Zseq 0 (Z.to_nat N))).
  split; [now apply xy0toN_ok |].
  intros n m q Hn Hm.
  assert (Hblock : forall a, length (jag_points xy0 (2 * pi / IZR N) a)
                             = (2 * length xy0)%nat)
    by (intros a; apply jag_points_length).
  assert (Hn0 : nth_error (Zseq 0 (Z.to_nat N)) n = Some (Z.of_nat n))
    by (rewrite Zseq_nth_error by lia; reflexivity).
  assert (Hn1 : nth_error (Zseq 0 (Z.to_nat N)) (n + 1) = Some (Z.of_nat n + 1)%Z)
    by (rewrite Zseq_nth_error by lia; f_equal; lia).
  replace (2 * n * length xy0 + m)%nat with (n * (2 * length xy0) + m)%nat by lia.
  replace (2 * (n + 1) * length xy0 + m)%nat
    with ((n + 1) * (2 * length xy0) + m)%nat by lia.
  rewrite (flat_map_blocks_nth _ _ Hblock _ _ _ _ Hn0) by lia.
  rewrite (flat_map_blocks_nth _ _ Hblock _ _ _ _ Hn1) by lia.
  rewrite jag_points_succ, nth_error_map. intros ->. reflexivity.
Qed.

Lemma X12_star_rotational_symmetry_witness :
  exists xy : co_vec_t,
    xy0toN [(1, 0); (2, 1)] 3 = Ok xy
    /\ forall (n m : nat) (q : co_t),
         (Z.of_nat n + 1 < 3)%Z -> (m < 2 * length [(1, 0); (2, 1)])%nat ->
         nth_error xy (2 * n * length [(1, 0); (2, 1)] + m) = Some q ->
         nth_error xy (2 * (n + 1) * length [(1, 0); (2, 1)] + m)
         = Some (rot q (2 * pi / IZR 3)).
Proof. apply (X12_star_rotational_symmetry [(1, 0); (2, 1)] 3). lia. Defined.

Lemma jag_points_norm2 (xy0 : co_vec_t) (dalpha : double) (n : Z) (q : co_t) :
  In q (jag_points xy0 dalpha n) ->
  exists p : co_t, In p xy0 /\ norm2 q = norm2 p.
Proof.
  unfold jag_points. intros Hq. apply in_app_or in Hq as [Hq | Hq];
    apply in_map_iff in Hq as (p & <- & Hp).
  - exists p. split; [now apply in_rev | apply rot_norm2].
  - exists p. split; [assumption |]. now rewrite mirr_norm2, rot_norm2.
Qed.

(** X13: whatever the sector and N >= 1, every point of the star is at the
    distance from the origin of some point of the sector, and every point of
    the sector occurs in the star (rotated by 0, in jag 0). *)
Theorem X13_star_distances (xy0 : co_vec_t) (N : Z) :
  (1 <= N)%Z ->
  exists xy : co_vec_t,
    xy0toN xy0 N = Ok xy
    /\ (forall q : co_t, In q xy ->
          exists p : co_t, In p xy0 /\ norm2 q = norm2 p)
    /\ (forall p : co_t, In p xy0 -> In p xy).
Proof.
  intros HN.
  exists (flat_map (jag_points xy0 (2 * pi / IZR N)) (Zseq 0 (Z.to_nat N))).
  split; [now apply xy0toN_ok |].
  split.
  - intros q Hq. apply in_flat_map in Hq as (n & _ & Hq).
    now apply jag_points_norm2 in Hq.
  - intros p Hp. apply in_flat_map. exists 0%Z.
    split; [apply Zseq_In; lia |].
    unfold jag_points. apply in_or_app. left. apply in_map_iff.
    exists p. split; [| now apply in_rev in Hp].
    replace (IZR 0 * (2 * pi / IZR N)) with 0 by ring. apply rot_0.
Qed.

Lemma X13_star_distances_witness :
  exists xy : co_vec_t,
    xy0toN [(1, 0); (2, 1)] 3 = Ok xy
    /\ (forall q : co_t, In q xy ->
          exists p : co_t, In p [(1, 0); (2, 1)] /\ norm2 q = norm2 p)
    /\ (forall p : co_t, In p [(1, 0); (2, 1)] -> In p xy).
Proof. apply (X13_star_distances [(1, 0); (2, 1)] 3). lia. Defined.

(** ** The star of the pipeline *)

Lemma ladder_arc_length_upper (R h rf hf : double) (K N : Z) (p : co_t) :
  valid R h rf hf N -> (1 <= K)%Z ->
  In p (ladder R h rf hf K N) -> fst p <= s3 R h rf.
Proof.
  intros Hv HK Hp. apply In_nth_error in Hp as [k Hp].
  rewrite <- (sk_K R h rf K HK).
  destruct (ladder_nth_cases R h rf hf K N k p Hv HK Hp) as [[Hi ->] | [Hi ->]];
    cbn [profile_sample closure_sample fst].
  - left. apply (sk_increasing R h rf hf K N Hv HK). lia.
  - apply Rle_refl.
Qed.

Lemma to_xy_norm2 (frac : double) (p : co_t) :
  norm2 (to_xy frac p) = fst p * fst p.
Proof.
  destruct p as [s cv]. unfold norm2, to_xy. cbn [fst snd].
  pose proof (sin_cos_sq (cv * frac / s + 0)) as H.
  set (ca := cos (cv * frac / s + 0)) in *.
  set (sa := sin (cv * frac / s + 0)) in *.
  replace (s * ca * (s * ca) + s * sa * (s * sa))
    with (s * s * (sa * sa + ca * ca)) by ring.
  rewrite H. ring.
Qed.

(** X14: in exact arithmetic, when [contour] returns a ladder for valid
    parameters and K >= 1 and the pipeline of [main] returns a star for
    them, the star has 2 N times as many points as the ladder has samples,
    so at least 2 N K, all of them in the ring between the radii R + h and
    R (1 + rf) + h. *)
Theorem X14_star_in_ring (R h rf hf : double) (K N : Z) (sc0 xyN : co_vec_t) :
  valid R h rf hf N -> (1 <= K)%Z ->
  contour R h rf hf K N = Ok sc0 ->
  star R h rf hf K N = Ok xyN ->
  Z.of_nat (length xyN) = (2 * N * Z.of_nat (length sc0))%Z
  /\ (2 * N * K <= Z.of_nat (length xyN))%Z
  /\ forall q : co_t, In q xyN ->
       (R + h) * (R + h) <= norm2 q
       <= (R * (1 + rf) + h) * (R * (1 + rf) + h).
Proof.
  intros Hv HK Hrun Hstar.
  rewrite (star_of_ladder R h rf hf K N sc0 Hv HK Hrun) in Hstar.
  injection Hstar as <-.
  destruct (contour_Ok_ladder R h rf hf K N sc0 Hv HK Hrun) as [-> _].
  pose proof (breakpoints R h rf hf N Hv) as (H1 & H12 & H23).
  pose proof (ladder_length R h rf hf K N Hv HK) as Hlen.
  pose proof (Kappa_ge_K R h rf hf K N Hv HK) as HKappa.
  assert (HN : (1 <= N)%Z) by (destruct Hv as (_ & _ & _ & _ & HN0); lia).
  assert (Hsize : Z.of_nat (length (flat_map
                    (jag_points (map (to_xy (0.5 / IZR N)) (ladder R h rf hf K N))
                       (2 * pi / IZR N)) (Zseq 0 (Z.to_nat N))))
                  = (2 * N * Z.of_nat (length (ladder R h rf hf K N)))%Z).
  { rewrite (flat_map_blocks_length _ (2 * length (ladder R h rf hf K N)))
      by (intros a; rewrite jag_points_length, length_map; reflexivity).
    rewrite Zseq_length. lia. }
  split; [exact Hsize |].
  split; [rewrite Hsize, Hlen; nia |].
  intros q Hq. apply in_flat_map in Hq as (n & _ & Hq).
  apply jag_points_norm2 in Hq as (p & Hp & ->).
  apply in_map_iff in Hp as (sc & <- & Hsc).
  rewrite to_xy_norm2.
  pose proof (ladder_arc_length_lower R h rf hf K N sc Hv HK Hsc) as Hlo.
  pose proof (ladder_arc_length_upper R h rf hf K N sc Hv HK Hsc) as Hhi.
  unfold s1, s3 in *.
  split; apply Rmult_le_compat; lra.
Qed.

Lemma X14_star_in_ring_witness :
  Z.of_nat (length (star_points 10 1 0.3 0.4 10 13))
  = (2 * 13 * Z.of_nat (length (ladder 10 1 0.3 0.4 10 13)))%Z
  /\ (2 * 13 * 10 <= Z.of_nat (length (star_points 10 1 0.3 0.4 10 13)))%Z
  /\ forall q : co_t, In q (star_points 10 1 0.3 0.4 10 13) ->
       (10 + 1) * (10 + 1) <= norm2 q
       <= (10 * (1 + 0.3) + 1) * (10 * (1 + 0.3) + 1).
Proof.
  apply (X14_star_in_ring 10 1 0.3 0.4 10 13 _ _ valid_scenario); [lia | |].
  - exact contour_scenario.
  - exact star_scenario.
Defined.

Lemma rot_polar (s t a : double) :
  rot (s * cos t, s * sin t) a = (s * cos (t + a), s * sin (t + a)).
Proof.
  unfold rot, rot_xy. cbn [fst snd]. rewrite cos_plus, sin_plus. f_equal; ring.
Qed.

Lemma mirr_axis (t a : double) :
  mirr (t * cos a, t * sin a) a = (t * cos a, t * sin a).
Proof.
  unfold mirr, mirr_xy. cbn [fst snd].
  pose proof (sin_cos_sq a) as H.
  set (ca := cos a) in *. set (sa := sin a) in *.
  f_equal.
  - replace (2 * (t * ca * ca + t * sa * sa) * ca - t * ca)
      with (t * ca + 2 * t * ca * (sa * sa + ca * ca - 1)) by ring.
    rewrite H. ring.
  - replace (2 * (t * ca * ca + t * sa * sa) * sa - t * sa)
      with (t * sa + 2 * t * sa * (sa * sa + ca * ca - 1)) by ring.
    rewrite H. ring.
Qed.

(** X15: in exact arithmetic, in a star that the pipeline returns for valid
    parameters and K >= 1 the two halves of every jag meet: the first sample
    of the ladder is mapped onto the mirror axis of jag 0, so the last point
    of the descending half of jag n and the first point of its ascending
    half are one and the same point, at distance R + h from the origin. *)
Theorem X15_jag_halves_meet (R h rf hf : double) (K N : Z)
  (sc0 xyN : co_vec_t) :
  valid R h rf hf N -> (1 <= K)%Z ->
  contour R h rf hf K N = Ok sc0 ->
  star R h rf hf K N = Ok xyN ->
  forall n : nat, (Z.of_nat n < N)%Z ->
    exists q : co_t,
      nth_error xyN (2 * n * length sc0 + (length sc0 - 1)) = Some q
      /\ nth_error xyN (2 * n * length sc0 + length sc0) = Some q
      /\ norm2 q = (R + h) * (R + h).
Proof.
  intros Hv HK Hrun Hstar.
  rewrite (star_of_ladder R h rf hf K N sc0 Hv HK Hrun) in Hstar.
  injection Hstar as <-.
  destruct (contour_Ok_ladder R h rf hf K N sc0 Hv HK Hrun) as [-> _].
  pose proof (breakpoints R h rf hf N Hv) as (H1 & _).
  pose proof (valid_N R h rf hf N Hv) as HN.
  pose proof (ladder_length R h rf hf K N Hv HK) as Hlen.
  pose proof (Kappa_ge_K R h rf hf K N Hv HK) as HKappa.
  pose proof (ladder_first R h rf hf K N Hv HK) as Hfirst.
  assert (H05 : 0.5 = 1 / 2) by lra.
  set (L := ladder R h rf hf K N) in *.
  set (xy0 := map (to_xy (0.5 / IZR N)) L).
  set (dalpha := 2 * pi / IZR N).
  assert (HI : length xy0 = length L) by apply length_map.
  assert (Hpos : (0 < length L)%nat) by lia.
  intros n Hn.
  assert (Hblock : forall a, length (jag_points xy0 dalpha a) = (2 * length xy0)%nat)
    by (intros a; apply jag_points_length).
  assert (Hnth : nth_error (Zseq 0 (Z.to_nat N)) n = Some (Z.of_nat n))
    by (rewrite Zseq_nth_error by lia; reflexivity).
  assert (H0 : nth 0 xy0 (0, 0)
               = (s1 R h * cos (0.5 * dalpha), s1 R h * sin (0.5 * dalpha))).
  { apply nth_error_nth. unfold xy0. rewrite nth_error_map, Hfirst.
    cbn [option_map]. unfold to_xy. cbn [fst snd].
    replace (2 * pi * s1 R h * (0.5 / IZR N) / s1 R h + 0) with (0.5 * dalpha)
      by (unfold dalpha; rewrite H05; field; split; lra).
    reflexivity. }
  set (q := (s1 R h * cos ((IZR (Z.of_nat n) + 0.5) * dalpha),
             s1 R h * sin ((IZR (Z.of_nat n) + 0.5) * dalpha)) : co_t).
  assert (Hrot : rot (nth 0 xy0 (0, 0)) (IZR (Z.of_nat n) * dalpha) = q).
  { rewrite H0, rot_polar. unfold q.
    replace (0.5 * dalpha + IZR (Z.of_nat n) * dalpha)
      with ((IZR (Z.of_nat n) + 0.5) * dalpha) by ring.
    reflexivity. }
  exists q. rewrite <- HI.
  split; [| split].
  - replace (2 * n * length xy0 + (length xy0 - 1))%nat
      with (n * (2 * length xy0) + (length xy0 - 1))%nat by lia.
    rewrite (flat_map_blocks_nth _ _ Hblock _ _ _ _ Hnth) by lia.
    rewrite (jag_points_descending xy0 dalpha (Z.of_nat n) (length xy0 - 1) (0, 0))
      by lia.
    replace (length xy0 - 1 - (length xy0 - 1))%nat with 0%nat by lia.
    now rewrite Hrot.
  - replace (2 * n * length xy0 + length xy0)%nat
      with (n * (2 * length xy0) + (length xy0 + 0))%nat by lia.
    rewrite (flat_map_blocks_nth _ _ Hblock _ _ _ _ Hnth) by lia.
    rewrite (jag_points_ascending xy0 dalpha (Z.of_nat n) 0 (0, 0)) by lia.
    rewrite Hrot. unfold q. now rewrite mirr_axis.
  - unfold q, norm2. cbn [fst snd].
    pose proof (sin_cos_sq ((IZR (Z.of_nat n) + 0.5) * dalpha)) as H.
    set (ca := cos ((IZR (Z.of_nat n) + 0.5) * dalpha)) in *.
    set (sa := sin ((IZR (Z.of_nat n) + 0.5) * dalpha)) in *.
    replace (s1 R h * ca * (s1 R h * ca) + s1 R h * sa * (s1 R h * sa))
      with (s1 R h * s1 R h * (sa * sa + ca * ca)) by ring.
    rewrite H. unfold s1. ring.
Qed.

Lemma X15_jag_halves_meet_witness :
  exists q : co_t,
    nth_error (star_points 10 1 0.3 0.4 10 13)
      (2 * 2 * length (ladder 10 1 0.3 0.4 10 13)
       + (length (ladder 10 1 0.3 0.4 10 13) - 1)) = Some q
    /\ nth_error (star_points 10 1 0.3 0.4 10 13)
         (2 * 2 * length (ladder 10 1 0.3 0.4 10 13)
          + length (ladder 10 1 0.3 0.4 10 13)) = Some q
    /\ norm2 q = (10 + 1) * (10 + 1).
Proof.
  apply (X15_jag_halves_meet 10 1 0.3 0.4 10 13 _ _ valid_scenario);
    [lia | | | lia].
  - exact contour_scenario.
  - exact star_scenario.
Defined.

(** ** The parameters that [main] derives *)

Lemma generate_star (res h cmax rmin drmax hf R : double) :
  cmax <> 0 -> res <> 0 -> R <> 0 ->
  generate res h cmax rmin drmax hf R
  = star R h (Rmin (R - rmin) drmax / R) hf (trunc (R / res))
      (Zceil (2 * pi * R / cmax)).
Proof.
  intros Hc Hres HR. unfold generate, radtoN.
  now rewrite !fdiv_ok by assumption.
Qed.

(** X19: a radius that does not exceed the minimal radius gives rf <= 0:
    with hf <= 1 and nonzero cmax and res the pass ends in the assertion
    rf > 0 of [contour]. *)
Theorem X19_generate_radius_below_minimum
  (res h cmax rmin drmax hf R : double) :
  0 < R <= rmin -> hf <= 1 -> cmax <> 0 -> res <> 0 ->
  Rmin (R - rmin) drmax / R <= 0
  /\ generate res h cmax rmin drmax hf R = Fault (AssertFailed A_rf_pos).
Proof.
  intros [HR HRmin] Hhf Hc Hres.
  set (rf := Rmin (R - rmin) drmax / R).
  assert (Hrf : rf <= 0).
  { assert (Hm : Rmin (R - rmin) drmax <= 0)
      by (pose proof (Rmin_l (R - rmin) drmax); lra).
    assert (Hinv : 0 < / R) by now apply Rinv_0_lt_compat.
    unfold rf, Rdiv.
    assert (0 <= - Rmin (R - rmin) drmax * / R) by (apply Rmult_le_pos; lra).
    lra. }
  split; [exact Hrf |].
  rewrite generate_star by lra. fold rf.
  unfold star, contour, preconditions.
  rewrite !Rleb_true by lra. rewrite Rltb_false by lra. reflexivity.
Qed.

Lemma X19_generate_radius_below_minimum_witness :
  Rmin (10 - 12) 3 / 10 <= 0
  /\ generate 1 1 5 12 3 0.4 10 = Fault (AssertFailed A_rf_pos).
Proof.
  apply (X19_generate_radius_below_minimum 1 1 5 12 3 0.4 10); lra.
Defined.

(** ** The serializer *)

Lemma append_assoc (a b c : String.string) :
  String.append (String.append a b) c = String.append a (String.append b c).
Proof. induction a as [| ch a IH]; cbn; [reflexivity | now rewrite IH]. Qed.

Lemma append_nil_r (a : String.string) : String.append a String.EmptyString = a.
Proof. induction a as [| ch a IH]; cbn; [reflexivity | now rewrite IH]. Qed.

Lemma put_xy_append (show : double -> String.string) (o t : String.string)
  (x y : double) :
  put_xy show (String.append o t) x y = String.append o (put_xy show t x y).
Proof. unfold put_xy. now rewrite !append_assoc. Qed.

Lemma print_loop (show : double -> String.string) (xy l : co_vec_t) :
  forall (pre : co_vec_t) (o : String.string),
    xy = pre ++ l ->
    for_up (length l) (Z.of_nat (length pre)) (print_segment show xy) o
    = Ok (String.append o (segments show l)).
Proof.
  induction l as [| a l IH]; intros pre o Hxy.
  - cbn. now rewrite append_nil_r.
  - cbn [length for_up]. unfold print_segment at 1.
    rewrite Hxy, get_app_mid. cbn [bind]. rewrite <- Hxy.
    replace (Z.of_nat (length pre) + 1)%Z with (Z.of_nat (length (pre ++ [a])))
      by (rewrite length_app; simpl; lia).
    rewrite (IH (pre ++ [a])) by (now rewrite <- app_assoc).
    cbn [segments fold_right]. fold (segments show l).
    now rewrite put_xy_append, append_assoc.
Qed.

Lemma print_cons (show : double -> String.string) (o : String.string)
  (p : co_t) (ps : co_vec_t) :
  print show (p :: ps) o
  = Ok (String.append o
          (String.append svg_head
             (String.append (put_xy show String.EmptyString (fst p) (snd p))
                (String.append (segments show ps) svg_tail)))).
Proof.
  unfold print.
  change (get (p :: ps) 0) with (Ok p). cbn [bind].
  replace (length (p :: ps) - 1)%nat with (length ps) by (simpl; lia).
  rewrite (print_loop show (p :: ps) ps [p]) by reflexivity. cbn [bind].
  f_equal.
  replace (String.append o svg_head)
    with (String.append (String.append o svg_head) String.EmptyString)
    by apply append_nil_r.
  rewrite put_xy_append, !append_assoc. reflexivity.
Qed.

(** X20: [print] reads xy[0] before anything else of the vector, so an
    empty one is out of range.  For a vector p :: ps it appends to the stream
    the head, the coordinates of p, one " L x y" for each point of ps in
    order, and the tail: every point is written once, and the path is closed
    by Z without the first point being repeated. *)
Theorem X20_print_path (show : double -> String.string) (o : String.string) :
  print show [] o = Fault OutOfRange
  /\ (forall (p : co_t) (ps : co_vec_t),
        print show (p :: ps) o
        = Ok (String.append o
                (String.append svg_head
                   (String.append (put_xy show String.EmptyString (fst p) (snd p))
                      (String.append (segments show ps) svg_tail))))).
Proof.
  split; [reflexivity |].
  intros p ps. apply print_cons.
Qed.
